(** * Command construction for the key-value client

    A shallow embedding of two Python modules:
    - [pybushka/async_commands/core.py]: the SET options ([ConditionalSet],
      [ExpiryType], [ExpirySet]) and the [CoreCommands] mixin ([set], [get],
      [custom_command]);
    - [glide/async_commands/server_modules/ft.py]: the index management
      functions ([create], [dropindex], [aliasadd], [aliasdel], [aliasupdate]).

    Python integers are [Z]; Python floats are IEEE 754 binary64 numbers,
    taken from the executable specification [SpecFloat]; exceptions are an
    explicit [result] type; the awaited dispatch adapter is a state
    transformer over an abstract world. *)

From Stdlib Require Import ZArith List String Ascii Bool Lia.
From Stdlib Require Import SpecFloat DecimalString DecimalZ DecimalPos.
Import ListNotations.

Local Open Scope string_scope.
Local Open Scope Z_scope.
Local Open Scope list_scope.

(** ** Python exceptions and results *)

Module Py.

Inductive PyExc : Type :=
| ValueError
| OverflowError
| OSError
| RequestError (msg : string)
| NotModelled.
(* [RequestError] stands for whatever the dispatch adapter raises.
   [NotModelled] is not a Python exception: it marks the places where the
   embedding stops ([str] of a float, a timedelta or a datetime).  Lemma
   [CoreFacts.set_expiry_type_and_value_modelled] shows the program never gets
   there. *)

Inductive result (A : Type) : Type :=
| Ok (a : A)
| Raise (e : PyExc).
Arguments Ok {A} a.
Arguments Raise {A} e.

Definition bind {A B : Type} (r : result A) (k : A -> result B) : result B :=
  match r with
  | Ok a => k a
  | Raise e => Raise e
  end.

Notation "x <- c ;; k" := (bind c (fun x => k))
  (at level 61, c at next level, right associativity).

(** ** Floats: binary64, as CPython's [float] *)

Definition prec : Z := 53.
Definition emax : Z := 1024.

Definition float : Type := spec_float.

(* An integer as an exact, not yet rounded, binary number. *)
Definition exact_of_int (z : Z) : float :=
  match z with
  | Z0 => S754_zero false
  | Zpos p => S754_finite false p 0
  | Zneg p => S754_finite true p 0
  end.

(* [a / b] on two ints: the quotient, rounded once to the nearest float
   (ties to even).  The divisor is never zero in this program. *)
Definition int_truediv (a b : Z) : float :=
  SFdiv prec emax (exact_of_int a) (exact_of_int b).

(* [float(z)], the conversion applied to an int operand of a float
   operation. *)
Definition float_of_int (z : Z) : float := binary_normalize prec emax z 0 false.

(* [x * y] on two floats. *)
Definition float_mul (x y : float) : float := SFmul prec emax x y.

(* [x + y] on two floats. *)
Definition float_add (x y : float) : float := SFadd prec emax x y.

(* [x / y] on two floats, for a divisor other than zero. *)
Definition float_truediv (x y : float) : float := SFdiv prec emax x y.

(* [int(x)] on a float: truncation towards zero; infinities raise
   OverflowError and NaN raises ValueError. *)
Definition int_of_float (x : float) : result Z :=
  match x with
  | S754_zero _ => Ok 0
  | S754_finite s m e =>
      let a := match e with
               | Zneg p => Z.shiftr (Zpos m) (Zpos p)
               | _ => Z.shiftl (Zpos m) e
               end in
      Ok (if s then - a else a)
  | S754_infinity _ => Raise OverflowError
  | S754_nan => Raise ValueError
  end.

(* A float that is a zero or a finite number with a mantissa below [2 ^ K]
   and an exponent of at most [E]. *)
Definition finite_below (K E : Z) (x : float) : Prop :=
  match x with
  | S754_zero _ => True
  | S754_finite _ m e => Zpos m < 2 ^ K /\ e <= E
  | _ => False
  end.

(* A float that is a zero or a finite number of magnitude below one. *)
Definition below_one (x : float) : Prop :=
  match x with
  | S754_zero _ => True
  | S754_finite _ m e => e < 0 /\ Zpos m < 2 ^ (- e)
  | _ => False
  end.

(* A float of sign [s] whose magnitude lies in [n, n + 1). *)
Definition within_unit (s : bool) (n : Z) (x : float) : Prop :=
  match x with
  | S754_zero _ => n = 0
  | S754_finite s' m e =>
      s' = s /\ e < 0 /\ n * 2 ^ (- e) <= Zpos m < (n + 1) * 2 ^ (- e)
  | _ => False
  end.

(* The rounding record of a mantissa with no bits shifted out. *)
Definition exact_record (m : Z) : shr_record :=
  {| shr_m := m; shr_r := false; shr_s := false |}.

(* The float of sign [sx] that the rounding step makes of a mantissa and an
   exponent within range. *)
Definition float_of_pair (sx : bool) (m e : Z) : float :=
  match m with
  | Z0 => S754_zero sx
  | Zpos p => S754_finite sx p e
  | Zneg _ => S754_nan
  end.

(** ** [datetime.timedelta] and [datetime.datetime] *)

(* A timedelta holds three normalised integers. *)
Record timedelta : Type := mk_timedelta {
  days : Z;
  seconds : Z;
  microseconds : Z
}.

(* The ranges the [timedelta] constructor enforces. *)
Definition timedelta_wf (td : timedelta) : Prop :=
  -999999999 <= days td <= 999999999 /\
  0 <= seconds td < 86400 /\
  0 <= microseconds td < 1000000.

Definition total_microseconds (td : timedelta) : Z :=
  (days td * 86400 + seconds td) * 10 ^ 6 + microseconds td.

(* [timedelta.total_seconds]:
     return ((self.days * 86400 + self.seconds) * 10**6
             + self.microseconds) / 10**6 *)
Definition total_seconds (td : timedelta) : float :=
  int_truediv (total_microseconds td) (10 ^ 6).

(* A timezone-aware datetime, held as the timedelta [self - _EPOCH], where
   [_EPOCH] is 1970-01-01T00:00:00+00:00.  A naive datetime is a
   [naive_datetime], below. *)
Record datetime : Type := mk_datetime {
  minus_EPOCH : timedelta
}.

(* [datetime.timestamp] of an aware datetime:
     return (self - _EPOCH).total_seconds() *)
Definition timestamp (dt : datetime) : float := total_seconds (minus_EPOCH dt).

(* The exceptions the host's local-time conversion can raise. *)
Inductive HostError : Type :=
| HostValueError
| HostOverflowError
| HostOSError.

Definition host_exception (e : HostError) : PyExc :=
  match e with
  | HostValueError => ValueError
  | HostOverflowError => OverflowError
  | HostOSError => OSError
  end.

(* A naive datetime (no tzinfo).  Its timestamp goes through the local-time
   conversion of the host ([_mktime]), which depends on the time zone of
   the machine: [host_mktime] is what that conversion answers for the date
   and time of this datetime, the Unix seconds or the exception raised (at
   datetime.min, ValueError: year 0 is out of range).  The program reads
   nothing else of a naive datetime. *)
Record naive_datetime : Type := mk_naive_datetime {
  microsecond : Z;
  host_mktime : HostError + Z
}.

(* [datetime.timestamp] of a naive datetime:
     s = self._mktime()
     return s + self.microsecond / 1e6 *)
Definition naive_timestamp (nd : naive_datetime) : result float :=
  match host_mktime nd with
  | inl e => Raise (host_exception e)
  | inr s =>
      Ok (float_add (float_of_int s)
            (float_truediv (float_of_int (microsecond nd))
                           (float_of_int 1000000)))
  end.

(** ** Dynamically typed values *)

Inductive PyValue : Type :=
| PyNone
| PyBool (b : bool)
| PyInt (z : Z)
| PyFloat (x : float)
| PyStr (s : string)
| PyTimedelta (td : timedelta)
| PyDatetime (dt : datetime)
| PyNaiveDatetime (nd : naive_datetime).

Inductive PyType : Type :=
| T_NoneType
| T_bool
| T_int
| T_float
| T_str
| T_timedelta
| T_datetime.

Definition PyType_eqb (a b : PyType) : bool :=
  match a, b with
  | T_NoneType, T_NoneType | T_bool, T_bool | T_int, T_int
  | T_float, T_float | T_str, T_str | T_timedelta, T_timedelta
  | T_datetime, T_datetime => true
  | _, _ => false
  end.

(* [type(v)] *)
Definition type_of (v : PyValue) : PyType :=
  match v with
  | PyNone => T_NoneType
  | PyBool _ => T_bool
  | PyInt _ => T_int
  | PyFloat _ => T_float
  | PyStr _ => T_str
  | PyTimedelta _ => T_timedelta
  | PyDatetime _ => T_datetime
  | PyNaiveDatetime _ => T_datetime
  end.

(* [issubclass(a, b)]: among these types the only proper subclass is
   [bool], a subclass of [int]. *)
Definition issubclass (a b : PyType) : bool :=
  PyType_eqb a b ||
  match a, b with
  | T_bool, T_int => true
  | _, _ => false
  end.

(* [isinstance(v, types)] with a tuple of types. *)
Definition isinstance (v : PyValue) (types : list PyType) : bool :=
  existsb (issubclass (type_of v)) types.

Definition float_is_zero (x : float) : bool :=
  match x with
  | S754_zero _ => true
  | _ => false
  end.

(* [bool(v)], the truth value tested by [if v] and [x if v else y]. *)
Definition truthy (v : PyValue) : bool :=
  match v with
  | PyNone => false
  | PyBool b => b
  | PyInt z => negb (z =? 0)
  | PyFloat x => negb (float_is_zero x)
  | PyStr s => negb (String.eqb s "")
  | PyTimedelta td =>
      negb ((days td =? 0) && (seconds td =? 0) && (microseconds td =? 0))
  | PyDatetime _ => true
  | PyNaiveDatetime _ => true
  end.

(* The decimal numeral of an int, with a minus sign when it is negative. *)
Definition decimal (z : Z) : string := NilZero.string_of_int (Z.to_int z).

(* [sys.int_info.default_max_str_digits]: the longest int, in decimal
   digits, that the interpreter converts to a string. *)
Definition int_max_str_digits : Z := 4300.

(* The smallest magnitude with more digits than that, [10 ** 4300]. *)
Definition str_digits_limit : Z := Eval vm_compute in 10 ^ int_max_str_digits.

(* [str(z)] on an int: its decimal numeral; an int of more than 4300
   digits, sign apart, raises ValueError ("Exceeds the limit (4300 digits)
   for integer string conversion"). *)
Definition str_of_int (z : Z) : result string :=
  if Z.abs z <? str_digits_limit then Ok (decimal z) else Raise ValueError.

(* [str(v)] *)
Definition py_str (v : PyValue) : result string :=
  match v with
  | PyNone => Ok "None"
  | PyBool true => Ok "True"
  | PyBool false => Ok "False"
  | PyInt z => str_of_int z
  | PyStr s => Ok s
  | PyFloat _ | PyTimedelta _ | PyDatetime _ | PyNaiveDatetime _ =>
      Raise NotModelled
  end.

(* Well-formed values: the invariants of the value's own class. *)
Definition value_wf (v : PyValue) : Prop :=
  match v with
  | PyTimedelta td => timedelta_wf td
  | PyDatetime dt => timedelta_wf (minus_EPOCH dt)
  | PyNaiveDatetime nd => 0 <= microsecond nd < 1000000
  | _ => True
  end.

(* Values whose conversion does not depend on the host: everything but a
   naive datetime. *)
Definition host_independent (v : PyValue) : Prop :=
  match v with
  | PyNaiveDatetime _ => False
  | _ => True
  end.

End Py.

(** ** [pybushka/async_commands/core.py] *)

Module Core.
Import Py.

(* class ConditionalSet(Enum).  The members carry the values 0 and 1; a
   member of a plain [Enum] is true in a condition whatever its value. *)
Inductive ConditionalSet : Type :=
| ONLY_IF_EXISTS
| ONLY_IF_DOES_NOT_EXIST.

Definition ConditionalSet_eqb (a b : ConditionalSet) : bool :=
  match a, b with
  | ONLY_IF_EXISTS, ONLY_IF_EXISTS => true
  | ONLY_IF_DOES_NOT_EXIST, ONLY_IF_DOES_NOT_EXIST => true
  | _, _ => false
  end.

(* The type hints stored in the members of [ExpiryType]. *)
Inductive TypeHint : Type :=
| Union (args : list PyType)
| Type_ (arg : PyType).

(* [typing.get_args] *)
Definition get_args (h : TypeHint) : list PyType :=
  match h with
  | Union args => args
  | Type_ arg => [arg]
  end.

(* class ExpiryType(Enum) *)
Inductive ExpiryType : Type :=
| SEC
| MILLSEC
| UNIX_SEC
| UNIX_MILLSEC
| KEEP_TTL.

(* The member's [value]: a pair of an index and the accepted types. *)
Definition ExpiryType_value (t : ExpiryType) : Z * TypeHint :=
  match t with
  | SEC => (0, Union [T_int; T_timedelta])
  | MILLSEC => (1, Union [T_int; T_timedelta])
  | UNIX_SEC => (2, Union [T_int; T_datetime])
  | UNIX_MILLSEC => (3, Union [T_int; T_datetime])
  | KEEP_TTL => (4, Type_ T_NoneType)
  end.

(* The tuple of types line 60 tests the value against. *)
Definition accepted_types (t : ExpiryType) : list PyType :=
  get_args (snd (ExpiryType_value t)).

(* The Redis token each member of [ConditionalSet] stands for, as the class
   docstring and the comments on the members give it. *)
Definition ConditionalSet_token (c : ConditionalSet) : string :=
  match c with
  | ONLY_IF_EXISTS => "XX"
  | ONLY_IF_DOES_NOT_EXIST => "NX"
  end.

(* The Redis keyword each member of [ExpiryType] stands for, from the same
   places. *)
Definition redis_keyword (t : ExpiryType) : string :=
  match t with
  | SEC => "EX"
  | MILLSEC => "PX"
  | UNIX_SEC => "EXAT"
  | UNIX_MILLSEC => "PXAT"
  | KEEP_TTL => "KEEPTTL"
  end.

(* class ExpirySet: the attributes set by the constructor. *)
Record ExpirySet : Type := mk_ExpirySet {
  expiry_type : ExpiryType;
  cmd_arg : string;
  value : option string
}.

(* Lines 65-82 of [set_expiry_type_and_value]: the chain over the expiry
   type, giving [self.cmd_arg] and the local [value] after it. *)
Definition expiry_chain (expiry_type : ExpiryType) (value : PyValue)
  : result (string * PyValue) :=
  match expiry_type with
  | SEC =>
      match value with
      | PyTimedelta td =>
          z <- int_of_float (total_seconds td) ;;
          Ok ("EX", PyInt z)
      | _ => Ok ("EX", value)
      end
  | MILLSEC =>
      match value with
      | PyTimedelta td =>
          z <- int_of_float (float_mul (total_seconds td) (float_of_int 1000)) ;;
          Ok ("PX", PyInt z)
      | _ => Ok ("PX", value)
      end
  | UNIX_SEC =>
      match value with
      | PyDatetime dt =>
          z <- int_of_float (timestamp dt) ;;
          Ok ("EXAT", PyInt z)
      | PyNaiveDatetime nd =>
          x <- naive_timestamp nd ;;
          z <- int_of_float x ;;
          Ok ("EXAT", PyInt z)
      | _ => Ok ("EXAT", value)
      end
  | UNIX_MILLSEC =>
      match value with
      | PyDatetime dt =>
          z <- int_of_float (float_mul (timestamp dt) (float_of_int 1000)) ;;
          Ok ("PXAT", PyInt z)
      | PyNaiveDatetime nd =>
          x <- naive_timestamp nd ;;
          z <- int_of_float (float_mul x (float_of_int 1000)) ;;
          Ok ("PXAT", PyInt z)
      | _ => Ok ("PXAT", value)
      end
  | KEEP_TTL => Ok ("KEEPTTL", value)
  end.

(* The local [value] after the chain: the normalised value. *)
Definition normalized (expiry_type : ExpiryType) (value : PyValue)
  : result PyValue :=
  cv <- expiry_chain expiry_type value ;;
  Ok (snd cv).

(** In the words of the specification: "normalizes duration-typed input to
    integer seconds (Seconds mode) or integer milliseconds (Milliseconds
    mode); normalizes point-in-time input to integer Unix seconds or
    milliseconds for the UnixSeconds and UnixMilliseconds modes, via
    truncation (not rounding) of sub-unit fractions".  This definition is
    written from that sentence, not from the code, on the exact count of
    microseconds; every other value is its own normal form.  It is what
    the code's [normalized] is compared with. *)
Definition spec_normalize (m : ExpiryType) (v : PyValue) : PyValue :=
  match m, v with
  | SEC, PyTimedelta td => PyInt (total_microseconds td ÷ 1000000)
  | MILLSEC, PyTimedelta td => PyInt (total_microseconds td ÷ 1000)
  | UNIX_SEC, PyDatetime dt =>
      PyInt (total_microseconds (minus_EPOCH dt) ÷ 1000000)
  | UNIX_MILLSEC, PyDatetime dt =>
      PyInt (total_microseconds (minus_EPOCH dt) ÷ 1000)
  | _, _ => v
  end.

(* The counts of microseconds on which the float conversions of the
   seconds modes, and of the milliseconds modes, are shown to agree with
   the truncation: below 2**33 seconds for the former; for the latter a
   whole number of seconds below 2**46 seconds, or a count that is not a
   whole number of milliseconds, below 2**31 seconds. *)
Definition seconds_exact (us : Z) : Prop :=
  Z.abs us < 2 ^ 33 * 1000000.

Definition milliseconds_exact (us : Z) : Prop :=
  (Z.rem us 1000000 = 0 /\ Z.abs us < 2 ^ 46 * 1000000) \/
  (Z.rem us 1000 <> 0 /\ Z.abs us < 2 ^ 31 * 1000000).

Definition count_exact (m : ExpiryType) (us : Z) : Prop :=
  match m with
  | SEC | UNIX_SEC => seconds_exact us
  | MILLSEC | UNIX_MILLSEC => milliseconds_exact us
  | KEEP_TTL => True
  end.

(* The values the comparison covers: an int that [str] converts, a
   timedelta or an aware datetime whose count is in the ranges above; a
   bool, None and the values the type test refuses are covered as they
   are; a naive datetime is not, its timestamp being the host's. *)
Definition conversion_exact (m : ExpiryType) (v : PyValue) : Prop :=
  match v with
  | PyInt z => Z.abs z < str_digits_limit
  | PyTimedelta td => count_exact m (total_microseconds td)
  | PyDatetime dt => count_exact m (total_microseconds (minus_EPOCH dt))
  | PyNaiveDatetime _ => False
  | _ => True
  end.

(* Line 83: [str(value) if value else None] *)
Definition str_if_truthy (value : PyValue) : result (option string) :=
  if truthy value then s <- py_str value ;; Ok (Some s) else Ok None.

(* ExpirySet.set_expiry_type_and_value, on a fresh object. *)
Definition set_expiry_type_and_value (expiry_type : ExpiryType)
  (value : PyValue) : result ExpirySet :=
  if negb (isinstance value (accepted_types expiry_type))
  then Raise ValueError
  else
    cv <- expiry_chain expiry_type value ;;
    sv <- str_if_truthy (snd cv) ;;
    Ok {| expiry_type := expiry_type; cmd_arg := fst cv; value := sv |}.

(* ExpirySet.__init__ *)
Definition ExpirySet_init (expiry_type : ExpiryType) (value : PyValue)
  : result ExpirySet :=
  set_expiry_type_and_value expiry_type value.

(* ExpirySet.get_cmd_args *)
Definition get_cmd_args (self : ExpirySet) : list string :=
  match value self with
  | None => [cmd_arg self]
  | Some v => [cmd_arg self; v]
  end.

(* The members of [RequestType] this module names. *)
Inductive RequestType : Type :=
| CustomCommand
| GetString
| SetString.

(* An awaited call: it runs in the world [W] of the connection and either
   returns or raises. *)
Definition Task (W A : Type) : Type := W -> result A * W.

(* What the [CoreCommands] mixin expects of [self]. *)
Class Executor (W : Type) : Type := {
  execute_command : RequestType -> list string -> Task W PyValue
}.

(* A test double: it appends every request to a log and answers with
   [reply]. *)
Definition Log : Type := list (RequestType * list string).

Definition recording (reply : RequestType -> list string -> result PyValue)
  : Executor Log :=
  {| execute_command := fun rt args log => (reply rt args, log ++ [(rt, args)]) |}.

Section CoreCommands.
Context {W : Type} {self : Executor W}.

(* CoreCommands.set, lines 134-143: the list [args] at the dispatch. *)
Definition set_args (key value : string)
  (conditional_set : option ConditionalSet) (expiry : option ExpirySet)
  (return_old_value : bool) : list string :=
  let args := [key; value] in
  let args :=
    match conditional_set with
    | Some c =>
        let args :=
          if ConditionalSet_eqb c ONLY_IF_EXISTS then args ++ ["XX"] else args in
        if ConditionalSet_eqb c ONLY_IF_DOES_NOT_EXIST then args ++ ["NX"] else args
    | None => args
    end in
  let args := if return_old_value then args ++ ["GET"] else args in
  match expiry with
  | Some e => args ++ get_cmd_args e
  | None => args
  end.

(* CoreCommands.set *)
Definition set (key value : string)
  (conditional_set : option ConditionalSet) (expiry : option ExpirySet)
  (return_old_value : bool) : Task W PyValue :=
  execute_command SetString
    (set_args key value conditional_set expiry return_old_value).

(* CoreCommands.get *)
Definition get (key : string) : Task W PyValue :=
  execute_command GetString [key].

(* CoreCommands.custom_command *)
Definition custom_command (command_args : list string) : Task W PyValue :=
  execute_command CustomCommand command_args.

(* A call in the shape of the docstring's example,
     connection.set(key, value, conditional_set=c, expiry=ExpirySet(t, v))
   where the expiry is constructed while the arguments are evaluated. *)
Definition set_constructing_expiry (key value : string)
  (conditional_set : option ConditionalSet)
  (expiry_type : ExpiryType) (expiry_value : PyValue)
  (return_old_value : bool) : Task W PyValue :=
  fun w =>
    match ExpirySet_init expiry_type expiry_value with
    | Ok e => set key value conditional_set (Some e) return_old_value w
    | Raise exc => (Raise exc, w)
    end.
End CoreCommands.

End Core.

(** ** [glide/async_commands/server_modules/ft.py] *)

Module Ft.
Import Py.

(* TEncodable = Union[str, bytes] *)
Inductive TEncodable : Type :=
| EStr (s : string)
| EBytes (b : list Byte.byte).

(** Modelled from the spec: the constants of [ft_constants.CommandNames], a
    module that is not among the sources.  The spec names the five commands
    FT.CREATE, FT.DROPINDEX, FT.ALIASADD, FT.ALIASDEL and FT.ALIASUPDATE. *)
Module CommandNames.
Definition FT_CREATE : TEncodable := EStr "FT.CREATE".
Definition FT_DROPINDEX : TEncodable := EStr "FT.DROPINDEX".
Definition FT_ALIASADD : TEncodable := EStr "FT.ALIASADD".
Definition FT_ALIASDEL : TEncodable := EStr "FT.ALIASDEL".
Definition FT_ALIASUPDATE : TEncodable := EStr "FT.ALIASUPDATE".
End CommandNames.

(** Modelled from the spec: the constant of [ft_constants.FtCreateKeywords]
    that [create] uses, the keyword SCHEMA of the spec. *)
Module FtCreateKeywords.
Definition SCHEMA : TEncodable := EStr "SCHEMA".
End FtCreateKeywords.

(* The [toArgs] method of [Field] and of [FtCreateOptions]; both classes
   live in [ft_create_options], not among the sources. *)
Class ToArgs (A : Type) : Type := toArgs : A -> list TEncodable.

(* What [ft] uses of [TGlideClient]. *)
Class GlideClient (W : Type) : Type := {
  custom_command : list TEncodable -> Core.Task W PyValue
}.

(* A test double for the client: it logs the commands it is given. *)
Definition recording_client (reply : list TEncodable -> result PyValue)
  : GlideClient (list (list TEncodable)) :=
  {| custom_command := fun args log => (reply args, log ++ [args]) |}.

Section Commands.
Context {W : Type} {client : GlideClient W}.
Context {Field FtCreateOptions : Type}.
Context {Field_toArgs : ToArgs Field}.
Context {FtCreateOptions_toArgs : ToArgs FtCreateOptions}.

(* create, lines 49-55: the list [args] at the dispatch.  An
   [FtCreateOptions] object is true in a condition, as any object whose
   class defines neither [__bool__] nor [__len__]; a list is true when it
   is not empty.  The loop over [schema] extends [args] field by field. *)
Definition create_args (indexName : TEncodable) (schema : list Field)
  (options : option FtCreateOptions) : list TEncodable :=
  let args := [CommandNames.FT_CREATE; indexName] in
  let args :=
    match options with
    | Some o => args ++ toArgs o
    | None => args
    end in
  match schema with
  | [] => args
  | _ :: _ =>
      let args := args ++ [FtCreateKeywords.SCHEMA] in
      fold_left (fun args field => args ++ toArgs field) schema args
  end.

(* create *)
Definition create (indexName : TEncodable) (schema : list Field)
  (options : option FtCreateOptions) : Core.Task W PyValue :=
  custom_command (create_args indexName schema options).

(* dropindex *)
Definition dropindex (indexName : TEncodable) : Core.Task W PyValue :=
  let args := [CommandNames.FT_DROPINDEX; indexName] in
  custom_command args.

(* aliasadd *)
Definition aliasadd (alias indexName : TEncodable) : Core.Task W PyValue :=
  let args := [CommandNames.FT_ALIASADD; alias; indexName] in
  custom_command args.

(* aliasdel *)
Definition aliasdel (alias : TEncodable) : Core.Task W PyValue :=
  let args := [CommandNames.FT_ALIASDEL; alias] in
  custom_command args.

(* aliasupdate *)
Definition aliasupdate (alias indexName : TEncodable) : Core.Task W PyValue :=
  let args := [CommandNames.FT_ALIASUPDATE; alias; indexName] in
  custom_command args.
End Commands.

End Ft.

(** ** Facts about the float operations *)

Module PyFacts.
Import Py.

Lemma fexp_binary64 (x : Z) : fexp prec emax x = Z.max (x - 53) (-1074).
Proof. reflexivity. Qed.

Lemma digits2_pos_size (p : positive) : digits2_pos p = Pos.size p.
Proof. induction p; simpl; congruence. Qed.

Lemma Zdigits2_nonneg (m : Z) : 0 <= Zdigits2 m.
Proof. destruct m; simpl; lia. Qed.

Lemma Zdigits2_le (m K : Z) : 0 <= K -> 0 <= m < 2 ^ K -> Zdigits2 m <= K.
Proof.
  intros HK [Hm0 HmK].
  destruct m as [|p|p]; simpl; try lia.
  rewrite digits2_pos_size.
  pose proof (Pos.size_le p) as Hs.
  apply Pos2Z.pos_le_pos in Hs.
  rewrite Pos2Z.inj_pow in Hs.
  change (Z.pos p~0) with (2 * Z.pos p) in Hs.
  destruct (Z_le_gt_dec (Z.pos (Pos.size p)) K) as [Hle|Hgt]; [exact Hle|].
  assert (2 ^ (K + 1) <= 2 ^ Z.pos (Pos.size p)) by (apply Z.pow_le_mono_r; lia).
  rewrite Z.pow_add_r in H by lia.
  change (2 ^ 1) with 2 in H. lia.
Qed.

Lemma shr_1_bounds (mrs : shr_record) :
  0 <= shr_m mrs -> 0 <= shr_m (shr_1 mrs) <= shr_m mrs.
Proof.
  destruct mrs as [m r s]; simpl.
  destruct m as [|[p|p|]|[p|p|]]; simpl; lia.
Qed.

Lemma iter_shr_1_bounds (p : positive) :
  forall mrs, 0 <= shr_m mrs ->
    0 <= shr_m (iter_pos shr_1 p mrs) <= shr_m mrs.
Proof.
  induction p as [p IH|p IH|]; intros mrs H; simpl.
  - pose proof (shr_1_bounds mrs H) as H1.
    pose proof (IH _ (proj1 H1)) as H2.
    pose proof (IH _ (proj1 H2)) as H3. lia.
  - pose proof (IH _ H) as H2.
    pose proof (IH _ (proj1 H2)) as H3. lia.
  - apply shr_1_bounds; exact H.
Qed.

Lemma shr_m_of_loc (m : Z) (l : location) : shr_m (shr_record_of_loc m l) = m.
Proof. destruct l as [|[ | | ]]; reflexivity. Qed.

Lemma shr_fexp_bounds (m e : Z) (l : location) :
  0 <= m ->
  0 <= shr_m (fst (shr_fexp prec emax m e l)) <= m /\
  snd (shr_fexp prec emax m e l) <= Z.max e (fexp prec emax (Zdigits2 m + e)).
Proof.
  intros Hm. unfold shr_fexp, shr.
  destruct (fexp prec emax (Zdigits2 m + e) - e) as [|p|p] eqn:En; simpl.
  - rewrite shr_m_of_loc. lia.
  - pose proof (iter_shr_1_bounds p (shr_record_of_loc m l)) as H.
    rewrite shr_m_of_loc in H. specialize (H Hm). lia.
  - rewrite shr_m_of_loc. lia.
Qed.

Lemma round_nearest_even_bounds (m : Z) (l : location) :
  m <= round_nearest_even m l <= m + 1.
Proof.
  destruct l as [|[ | | ]]; simpl; try lia.
  destruct (Z.even m); lia.
Qed.

(* Rounding a non-negative number that is not too large gives a finite
   float or a zero. *)
Lemma binary_round_aux_finite (sx : bool) (mx ex : Z) (lx : location) (K E : Z) :
  0 <= K -> 0 <= mx < 2 ^ K -> ex <= E -> -1074 <= E ->
  2 * K + E + 1 <= 971 ->
  finite_below (K + 1) (2 * K + E + 1) (binary_round_aux prec emax sx mx ex lx).
Proof.
  intros HK Hmx Hex HE Hfit. unfold binary_round_aux.
  pose proof (shr_fexp_bounds mx ex lx (proj1 Hmx)) as [Hm1 He1].
  destruct (shr_fexp prec emax mx ex lx) as [mrs1 e1]; simpl in Hm1, He1.
  pose proof (round_nearest_even_bounds (shr_m mrs1) (loc_of_shr_record mrs1)) as Hr.
  set (m1 := round_nearest_even (shr_m mrs1) (loc_of_shr_record mrs1)) in *.
  assert (Hpow : 2 ^ (K + 1) = 2 * 2 ^ K).
  { rewrite Z.pow_add_r by lia. change (2 ^ 1) with 2. lia. }
  assert (Hm1K : 0 <= m1 < 2 ^ (K + 1)) by lia.
  pose proof (Zdigits2_le mx K HK Hmx) as Hd.
  pose proof (Zdigits2_nonneg mx) as Hd0.
  rewrite fexp_binary64 in He1.
  pose proof (shr_fexp_bounds m1 e1 loc_Exact (proj1 Hm1K)) as [Hm2 He2].
  destruct (shr_fexp prec emax m1 e1 loc_Exact) as [mrs2 e2]; simpl in Hm2, He2.
  pose proof (Zdigits2_le m1 (K + 1) ltac:(lia) Hm1K) as Hd1.
  pose proof (Zdigits2_nonneg m1) as Hd10.
  rewrite fexp_binary64 in He2.
  destruct (shr_m mrs2) as [|m2|m2] eqn:Em2.
  - exact I.
  - assert (He : e2 <= 2 * K + E + 1) by lia.
    assert (Hl : (e2 <=? emax - prec) = true)
      by (apply Z.leb_le; unfold emax, prec; lia).
    rewrite Hl. unfold finite_below. split; lia.
  - lia.
Qed.

Lemma total_microseconds_bound (td : timedelta) :
  timedelta_wf td -> - 2 ^ 67 < total_microseconds td < 2 ^ 67.
Proof.
  unfold timedelta_wf, total_microseconds.
  change (10 ^ 6) with 1000000.
  change (2 ^ 67) with 147573952589676412928.
  lia.
Qed.

(* The quotient and exponent that the division by 10**6 hands to the
   rounding step. *)
Lemma SFdiv_core_bounds (p : positive) :
  Zpos p < 2 ^ 67 ->
  forall q e l,
    SFdiv_core_binary prec emax (Zpos p) 0 1000000 0 = (q, e, l) ->
    0 <= q < 2 ^ 140 /\ e <= 0.
Proof.
  intros Hp q e l. unfold SFdiv_core_binary.
  change (Zdigits2 1000000) with 20.
  rewrite fexp_binary64.
  pose proof (Zdigits2_nonneg (Zpos p)) as Hd.
  set (d1 := Zdigits2 (Zpos p)) in *.
  set (e' := Z.min (Z.max (d1 + 0 - (20 + 0) - 53) (-1074)) (0 - 0)).
  assert (He' : -73 <= e' <= 0) by (unfold e'; lia).
  set (m' := match 0 - 0 - e' with
             | 0 => Zpos p
             | Zpos _ => Z.shiftl (Zpos p) (0 - 0 - e')
             | Zneg _ => 0
             end).
  assert (Hm' : 0 <= m' < 2 ^ 140).
  { unfold m'. destruct (0 - 0 - e') as [|s|s] eqn:Es.
    - split; [lia|]. apply Z.lt_trans with (2 ^ 67); [exact Hp|].
      reflexivity.
    - rewrite Z.shiftl_mul_pow2 by lia.
      assert (Hs : 2 ^ Zpos s <= 2 ^ 73) by (apply Z.pow_le_mono_r; lia).
      assert (H0 : 0 < 2 ^ Zpos s) by (apply Z.pow_pos_nonneg; lia).
      change (2 ^ 140) with (2 ^ 67 * 2 ^ 73).
      split; [lia|].
      apply Z.lt_le_trans with (2 ^ 67 * 2 ^ Zpos s).
      + apply Z.mul_lt_mono_pos_r; assumption.
      + apply Z.mul_le_mono_nonneg_l; [|exact Hs].
        apply Z.pow_nonneg; lia.
    - split; [lia|]. apply Z.pow_pos_nonneg; lia. }
  pose proof (Z.div_pos m' 1000000 (proj1 Hm') ltac:(lia)) as Hq0.
  assert (Hq1 : m' / 1000000 <= m').
  { apply Z.div_le_upper_bound; lia. }
  unfold Z.div in Hq0, Hq1.
  destruct (Z.div_eucl m' 1000000) as [q0 r0].
  intros Heq. injection Heq as <- <- <-. lia.
Qed.

(* [total_seconds] of a timedelta in range is a finite float. *)
Lemma int_truediv_finite (u : Z) :
  - 2 ^ 67 < u < 2 ^ 67 -> finite_below 141 281 (int_truediv u (10 ^ 6)).
Proof.
  intros Hu. unfold int_truediv. change (10 ^ 6) with 1000000.
  destruct u as [|p|p]; unfold exact_of_int, SFdiv.
  - exact I.
  - pose proof (SFdiv_core_bounds p ltac:(lia)) as H.
    destruct (SFdiv_core_binary prec emax (Zpos p) 0 1000000 0) as [[q e] l].
    destruct (H q e l eq_refl) as [Hq He].
    apply (binary_round_aux_finite _ q e l 140 0); lia.
  - pose proof (SFdiv_core_bounds p ltac:(lia)) as H.
    destruct (SFdiv_core_binary prec emax (Zpos p) 0 1000000 0) as [[q e] l].
    destruct (H q e l eq_refl) as [Hq He].
    apply (binary_round_aux_finite _ q e l 140 0); lia.
Qed.

Lemma float_of_int_1000 :
  float_of_int 1000 = S754_finite false 8796093022208000 (-43).
Proof. reflexivity. Qed.

(* Multiplying such a float by 1000 gives a finite float again. *)
Lemma float_mul_1000_finite (x : float) :
  finite_below 141 281 x ->
  finite_below 195 627 (float_mul x (float_of_int 1000)).
Proof.
  intros Hx. rewrite float_of_int_1000. unfold float_mul.
  destruct x as [s| | |s m e]; simpl in Hx; try contradiction.
  - exact I.
  - destruct Hx as [Hm He]. unfold SFmul.
    apply (binary_round_aux_finite _ _ _ _ 194 238); lia.
Qed.

Lemma int_of_float_finite (K E : Z) (x : float) :
  finite_below K E x -> exists z, int_of_float x = Ok z.
Proof.
  destruct x as [s|s| |s m e]; simpl; intros H; try contradiction; eauto.
Qed.

(* The four conversions of the expiry values always return. *)
Lemma int_total_seconds (td : timedelta) :
  timedelta_wf td -> exists z, int_of_float (total_seconds td) = Ok z.
Proof.
  intros H. apply (int_of_float_finite 141 281).
  apply int_truediv_finite, total_microseconds_bound, H.
Qed.

Lemma int_total_milliseconds (td : timedelta) :
  timedelta_wf td ->
  exists z, int_of_float (float_mul (total_seconds td) (float_of_int 1000)) = Ok z.
Proof.
  intros H. apply (int_of_float_finite 195 627).
  apply float_mul_1000_finite.
  apply int_truediv_finite, total_microseconds_bound, H.
Qed.

(** *** Quotients below one truncate to zero *)

Lemma shr_1_halves (mrs : shr_record) :
  0 <= shr_m mrs -> 2 * shr_m (shr_1 mrs) <= shr_m mrs.
Proof.
  destruct mrs as [m r s]; simpl.
  destruct m as [|[p|p|]|[p|p|]]; simpl; lia.
Qed.

Lemma iter_shr_1_divides (p : positive) :
  forall mrs, 0 <= shr_m mrs ->
    2 ^ Zpos p * shr_m (iter_pos shr_1 p mrs) <= shr_m mrs.
Proof.
  induction p as [p IH|p IH|]; intros mrs H; simpl iter_pos.
  - pose proof (shr_1_bounds mrs H) as B1.
    pose proof (shr_1_halves mrs H) as H1.
    pose proof (iter_shr_1_bounds p _ (proj1 B1)) as B2.
    pose proof (IH _ (proj1 B1)) as H2.
    pose proof (iter_shr_1_bounds p _ (proj1 B2)) as B3.
    pose proof (IH _ (proj1 B2)) as H3.
    replace (Zpos p~1) with (Zpos p + Zpos p + 1) by lia.
    rewrite !Z.pow_add_r by lia. change (2 ^ 1) with 2.
    assert (P : 0 < 2 ^ Zpos p) by (apply Z.pow_pos_nonneg; lia).
    set (a := 2 ^ Zpos p) in *.
    set (m3 := shr_m (iter_pos shr_1 p (iter_pos shr_1 p (shr_1 mrs)))) in *.
    set (m2 := shr_m (iter_pos shr_1 p (shr_1 mrs))) in *.
    assert (a * (a * m3) <= a * m2) by (apply Z.mul_le_mono_nonneg_l; lia).
    lia.
  - pose proof (iter_shr_1_bounds p _ H) as B2.
    pose proof (IH _ H) as H2.
    pose proof (IH _ (proj1 B2)) as H3.
    replace (Zpos p~0) with (Zpos p + Zpos p) by lia.
    rewrite !Z.pow_add_r by lia.
    assert (P : 0 < 2 ^ Zpos p) by (apply Z.pow_pos_nonneg; lia).
    set (a := 2 ^ Zpos p) in *.
    set (m3 := shr_m (iter_pos shr_1 p (iter_pos shr_1 p mrs))) in *.
    set (m2 := shr_m (iter_pos shr_1 p mrs)) in *.
    assert (a * (a * m3) <= a * m2) by (apply Z.mul_le_mono_nonneg_l; lia).
    lia.
  - change (2 ^ 1) with 2. apply shr_1_halves; exact H.
Qed.

(* The shift of [shr_fexp] moves the exponent up and divides the mantissa
   accordingly. *)
Lemma shr_fexp_divides (m e : Z) (l : location) :
  0 <= m ->
  e <= snd (shr_fexp prec emax m e l) /\
  2 ^ (snd (shr_fexp prec emax m e l) - e)
    * shr_m (fst (shr_fexp prec emax m e l)) <= m.
Proof.
  intros Hm. unfold shr_fexp, shr.
  destruct (fexp prec emax (Zdigits2 m + e) - e) as [|p|p] eqn:En;
    cbn [fst snd].
  - rewrite shr_m_of_loc, Z.sub_diag. change (2 ^ 0) with 1. lia.
  - pose proof (iter_shr_1_divides p (shr_record_of_loc m l)) as H.
    rewrite shr_m_of_loc in H. specialize (H Hm).
    replace (e + Zpos p - e) with (Zpos p) by lia. lia.
  - rewrite shr_m_of_loc, Z.sub_diag. change (2 ^ 0) with 1. lia.
Qed.

Lemma pow2_split (a b : Z) : 0 <= a -> 0 <= b -> 2 ^ (a + b) = 2 ^ a * 2 ^ b.
Proof. intros. apply Z.pow_add_r; assumption. Qed.

(* Rounding a number that is at most 0.999999 stays below one. *)
Lemma binary_round_aux_below_one (sx : bool) (mx ex : Z) (lx : location) :
  0 <= mx -> ex <= -20 ->
  mx * 1000000 <= 2 ^ (- ex) * 999999 ->
  below_one (binary_round_aux prec emax sx mx ex lx).
Proof.
  intros Hmx Hex Hval. unfold binary_round_aux.
  assert (Hlarge : forall e, e <= -20 -> 1000000 < 2 ^ (- e)).
  { intros e He. apply Z.lt_le_trans with (2 ^ 20); [reflexivity|].
    apply Z.pow_le_mono_r; lia. }
  assert (Hdig : forall m e, 0 <= m -> e <= -20 -> m < 2 ^ (- e) ->
            fexp prec emax (Zdigits2 m + e) <= -53).
  { intros m e Hm He Hlt. rewrite fexp_binary64.
    pose proof (Zdigits2_le m (- e) ltac:(lia) (conj Hm Hlt)). lia. }
  assert (Hlt : mx < 2 ^ (- ex)).
  { pose proof (Hlarge ex Hex).
    assert (0 < 2 ^ (- ex)) by lia. nia. }
  pose proof (shr_fexp_bounds mx ex lx Hmx) as [Hm1 He1].
  pose proof (shr_fexp_divides mx ex lx Hmx) as [He1' Hd1].
  pose proof (Hdig mx ex Hmx Hex Hlt) as Hf1.
  destruct (shr_fexp prec emax mx ex lx) as [mrs1 e1];
    simpl in Hm1, He1, He1', Hd1.
  assert (He1b : e1 <= -20) by lia.
  pose proof (round_nearest_even_bounds (shr_m mrs1) (loc_of_shr_record mrs1)) as Hr.
  set (r := round_nearest_even (shr_m mrs1) (loc_of_shr_record mrs1)) in *.
  assert (Hsplit : 2 ^ (- ex) = 2 ^ (e1 - ex) * 2 ^ (- e1)).
  { rewrite <- pow2_split by lia. f_equal. lia. }
  assert (Hp1 : 0 < 2 ^ (e1 - ex)) by (apply Z.pow_pos_nonneg; lia).
  assert (Hm1v : shr_m mrs1 * 1000000 <= 2 ^ (- e1) * 999999).
  { apply (Z.mul_le_mono_pos_l _ _ (2 ^ (e1 - ex)) Hp1).
    rewrite Hsplit in Hval. nia. }
  assert (Hrlt : r < 2 ^ (- e1)).
  { pose proof (Hlarge e1 He1b). nia. }
  assert (Hr0 : 0 <= r) by lia.
  pose proof (shr_fexp_bounds r e1 loc_Exact Hr0) as [Hm2 He2].
  pose proof (shr_fexp_divides r e1 loc_Exact Hr0) as [He2' Hd2].
  pose proof (Hdig r e1 Hr0 He1b Hrlt) as Hf2.
  destruct (shr_fexp prec emax r e1 loc_Exact) as [mrs2 e2];
    simpl in Hm2, He2, He2', Hd2.
  assert (He2b : e2 <= -20) by lia.
  assert (Hsplit2 : 2 ^ (- e1) = 2 ^ (e2 - e1) * 2 ^ (- e2)).
  { rewrite <- pow2_split by lia. f_equal. lia. }
  assert (Hp2 : 0 < 2 ^ (e2 - e1)) by (apply Z.pow_pos_nonneg; lia).
  assert (Hm2lt : shr_m mrs2 < 2 ^ (- e2)).
  { apply (Z.mul_lt_mono_pos_l (2 ^ (e2 - e1)) _ _ Hp2).
    rewrite <- Hsplit2. lia. }
  destruct (shr_m mrs2) as [|m2|m2] eqn:Em2.
  - exact I.
  - assert (Hl : (e2 <=? emax - prec) = true)
      by (apply Z.leb_le; unfold emax, prec; lia).
    rewrite Hl. unfold below_one. split; lia.
  - lia.
Qed.

Lemma SFdiv_core_below_one (p : positive) :
  Zpos p < 1000000 ->
  forall q e l,
    SFdiv_core_binary prec emax (Zpos p) 0 1000000 0 = (q, e, l) ->
    0 <= q /\ e <= -20 /\ q * 1000000 <= 2 ^ (- e) * 999999.
Proof.
  intros Hp q e l. unfold SFdiv_core_binary.
  change (Zdigits2 1000000) with 20.
  rewrite fexp_binary64.
  pose proof (Zdigits2_nonneg (Zpos p)) as Hd0.
  pose proof (Zdigits2_le (Zpos p) 20 ltac:(lia)
                (conj (Pos2Z.is_nonneg p)
                      (Z.lt_trans _ _ _ Hp (eq_refl : 1000000 < 2 ^ 20)))) as Hd.
  set (d1 := Zdigits2 (Zpos p)) in *.
  set (e' := Z.min (Z.max (d1 + 0 - (20 + 0) - 53) (-1074)) (0 - 0)).
  assert (He' : -73 <= e' <= -53) by (unfold e'; lia).
  destruct (0 - 0 - e') as [|s|s] eqn:Es; try lia.
  rewrite Z.shiftl_mul_pow2 by lia.
  assert (P : 0 < 2 ^ Zpos s) by (apply Z.pow_pos_nonneg; lia).
  pose proof (Z.div_pos (Zpos p * 2 ^ Zpos s) 1000000 ltac:(lia) ltac:(lia)) as Hq0.
  pose proof (Z.mul_div_le (Zpos p * 2 ^ Zpos s) 1000000 ltac:(lia)) as Hq1.
  unfold Z.div in Hq0, Hq1.
  destruct (Z.div_eucl (Zpos p * 2 ^ Zpos s) 1000000) as [q0 r0].
  intros Heq. injection Heq as <- <- <-.
  replace (- e') with (Zpos s) by lia.
  split; [exact Hq0|]. split; [lia|]. nia.
Qed.

(* [int(x / 10**6)] is 0 for every int [x] strictly between [-10**6] and
   [10**6]. *)
Lemma int_truediv_below_one (u : Z) :
  - 1000000 < u < 1000000 -> int_of_float (int_truediv u (10 ^ 6)) = Ok 0.
Proof.
  intros Hu.
  assert (B : below_one (int_truediv u (10 ^ 6))).
  { unfold int_truediv. change (10 ^ 6) with 1000000.
    destruct u as [|p|p]; unfold exact_of_int, SFdiv.
    - exact I.
    - pose proof (SFdiv_core_below_one p ltac:(lia)) as H.
      destruct (SFdiv_core_binary prec emax (Zpos p) 0 1000000 0) as [[q e] l].
      destruct (H q e l eq_refl) as [Hq [He Hv]].
      apply binary_round_aux_below_one; assumption.
    - pose proof (SFdiv_core_below_one p ltac:(lia)) as H.
      destruct (SFdiv_core_binary prec emax (Zpos p) 0 1000000 0) as [[q e] l].
      destruct (H q e l eq_refl) as [Hq [He Hv]].
      apply binary_round_aux_below_one; assumption. }
  destruct (int_truediv u (10 ^ 6)) as [s|s| |s m e]; simpl in B;
    try contradiction; [reflexivity|].
  destruct B as [He Hm]. unfold int_of_float.
  destruct e as [|pe|pe]; try lia.
  rewrite Z.shiftr_div_pow2 by lia.
  change (- Zneg pe) with (Zpos pe) in Hm.
  rewrite Z.div_small by lia.
  destruct s; reflexivity.
Qed.

(** *** [str] of an int, and the size of the converted ints *)

Lemma str_of_int_small (z : Z) :
  Z.abs z < str_digits_limit -> str_of_int z = Ok (decimal z).
Proof.
  intros H. unfold str_of_int. apply Z.ltb_lt in H. rewrite H. reflexivity.
Qed.

Lemma str_of_int_large (z : Z) :
  str_digits_limit <= Z.abs z -> str_of_int z = Raise ValueError.
Proof.
  intros H. unfold str_of_int. apply Z.ltb_ge in H. rewrite H. reflexivity.
Qed.

Lemma pow_822_below_limit : 2 ^ 822 < str_digits_limit.
Proof. vm_compute. reflexivity. Qed.

Lemma int_of_float_below (K E : Z) (x : float) :
  0 <= K -> 0 <= E -> finite_below K E x ->
  exists z, int_of_float x = Ok z /\ Z.abs z < 2 ^ (K + E).
Proof.
  intros HK HE. assert (P : 0 < 2 ^ (K + E)) by (apply Z.pow_pos_nonneg; lia).
  destruct x as [s|s| |s m e]; simpl; try contradiction.
  - intros _. exists 0. split; [reflexivity|]. simpl. exact P.
  - intros [Hm He].
    assert (Ha : 0 <= match e with
                      | Z.neg p => Z.shiftr (Z.pos m) (Z.pos p)
                      | _ => Z.shiftl (Z.pos m) e
                      end < 2 ^ (K + E)).
    { assert (PK : 0 < 2 ^ K) by (apply Z.pow_pos_nonneg; lia).
      assert (HKE : 2 ^ K <= 2 ^ (K + E)) by (apply Z.pow_le_mono_r; lia).
      destruct e as [|pe|pe].
      - rewrite Z.shiftl_mul_pow2 by lia. change (2 ^ 0) with 1. lia.
      - rewrite Z.shiftl_mul_pow2 by lia. rewrite pow2_split by lia.
        assert (0 < 2 ^ Z.pos pe) by (apply Z.pow_pos_nonneg; lia).
        assert (2 ^ Z.pos pe <= 2 ^ E) by (apply Z.pow_le_mono_r; lia).
        split; [lia|].
        apply Z.lt_le_trans with (2 ^ K * 2 ^ Z.pos pe).
        + apply Z.mul_lt_mono_pos_r; lia.
        + apply Z.mul_le_mono_nonneg_l; lia.
      - rewrite Z.shiftr_div_pow2 by lia.
        assert (0 < 2 ^ Z.pos pe) by (apply Z.pow_pos_nonneg; lia).
        split; [apply Z.div_pos; lia|].
        apply Z.le_lt_trans with (Z.pos m); [|lia].
        apply Z.div_le_upper_bound; [lia|]. nia. }
    eexists. split; [reflexivity|]. destruct s; lia.
Qed.

(* The converted ints are far below the limit of [str]. *)
Lemma int_total_seconds_small (td : timedelta) :
  timedelta_wf td ->
  exists z, int_of_float (total_seconds td) = Ok z /\
            Z.abs z < str_digits_limit.
Proof.
  intros H.
  destruct (int_of_float_below 141 281 (total_seconds td)) as [z [Hz Hb]];
    try lia.
  - apply int_truediv_finite, total_microseconds_bound, H.
  - exists z. split; [exact Hz|].
    apply Z.lt_trans with (2 ^ 822); [|exact pow_822_below_limit].
    apply Z.lt_le_trans with (2 ^ (141 + 281)); [exact Hb|].
    apply Z.pow_le_mono_r; lia.
Qed.

Lemma int_total_milliseconds_small (td : timedelta) :
  timedelta_wf td ->
  exists z,
    int_of_float (float_mul (total_seconds td) (float_of_int 1000)) = Ok z /\
    Z.abs z < str_digits_limit.
Proof.
  intros H.
  destruct (int_of_float_below 195 627
              (float_mul (total_seconds td) (float_of_int 1000)))
    as [z [Hz Hb]]; try lia.
  - apply float_mul_1000_finite.
    apply int_truediv_finite, total_microseconds_bound, H.
  - exists z. split; [exact Hz|].
    apply Z.lt_le_trans with (2 ^ 822); [|apply Z.lt_le_incl, pow_822_below_limit].
    exact Hb.
Qed.

End PyFacts.

(** ** Truncation of quotients by [10**6] *)

Module FloatTrunc.
Import Py PyFacts.

Lemma shr_1_div2 (mrs : shr_record) :
  0 <= shr_m mrs -> shr_m (shr_1 mrs) = shr_m mrs / 2.
Proof.
  intros H. rewrite <- Z.div2_div.
  destruct mrs as [m r s]; simpl in *.
  destruct m as [|[p|p|]|[p|p|]]; simpl; try reflexivity; lia.
Qed.

Lemma iter_shr_1_div (p : positive) :
  forall mrs, 0 <= shr_m mrs ->
    shr_m (iter_pos shr_1 p mrs) = shr_m mrs / 2 ^ Zpos p.
Proof.
  assert (P : forall q, 0 < 2 ^ Zpos q) by (intros; apply Z.pow_pos_nonneg; lia).
  induction p as [p IH|p IH|]; intros mrs H; simpl iter_pos.
  - pose proof (shr_1_bounds mrs H) as B1.
    pose proof (iter_shr_1_bounds p _ (proj1 B1)) as B2.
    rewrite IH by apply B2. rewrite IH by apply B1.
    rewrite shr_1_div2 by exact H.
    pose proof (P p).
    rewrite !Z.div_div by lia.
    f_equal. replace (Zpos p~1) with (1 + Zpos p + Zpos p) by lia.
    rewrite !Z.pow_add_r by lia. change (2 ^ 1) with 2. lia.
  - pose proof (iter_shr_1_bounds p _ H) as B2.
    rewrite IH by apply B2. rewrite IH by exact H.
    pose proof (P p).
    rewrite Z.div_div by lia.
    f_equal. replace (Zpos p~0) with (Zpos p + Zpos p) by lia.
    rewrite Z.pow_add_r by lia. reflexivity.
  - apply shr_1_div2; exact H.
Qed.

(* The mantissa after [shr_fexp] is the quotient by the power of two the
   exponent has moved by. *)
Lemma shr_fexp_div (m e : Z) (l : location) :
  0 <= m ->
  shr_m (fst (shr_fexp prec emax m e l))
  = m / 2 ^ (snd (shr_fexp prec emax m e l) - e).
Proof.
  intros Hm. unfold shr_fexp, shr.
  destruct (fexp prec emax (Zdigits2 m + e) - e) as [|p|p] eqn:En;
    cbn [fst snd].
  - rewrite shr_m_of_loc, Z.sub_diag. change (2 ^ 0) with 1.
    symmetry. apply Z.div_1_r.
  - rewrite iter_shr_1_div by (rewrite shr_m_of_loc; exact Hm).
    rewrite shr_m_of_loc. f_equal. f_equal. lia.
  - rewrite shr_m_of_loc, Z.sub_diag. change (2 ^ 0) with 1.
    symmetry. apply Z.div_1_r.
Qed.

(* One shift step keeps a mantissa in its unit interval [n, n + 1), scaled
   to the new exponent. *)
Lemma shift_keeps_unit (n m e e' : Z) :
  e <= e' -> e' <= 0 -> 0 <= m ->
  n * 2 ^ (- e) <= m ->
  n * 2 ^ (- e') <= m / 2 ^ (e' - e).
Proof.
  intros Hee He' Hm Hlow.
  assert (Hs : 2 ^ (- e) = 2 ^ (e' - e) * 2 ^ (- e')).
  { rewrite <- pow2_split by lia. f_equal. lia. }
  assert (Hp : 0 < 2 ^ (e' - e)) by (apply Z.pow_pos_nonneg; lia).
  apply Z.div_le_lower_bound; [exact Hp|].
  rewrite Hs in Hlow. lia.
Qed.

(* Rounding a number of [n, n + 1 - 10**-6], with [n + 1 <= 2**33], stays
   in [n, n + 1). *)
Lemma binary_round_aux_within_unit (sx : bool) (mx ex : Z) (lx : location) (n : Z) :
  0 <= n -> n + 1 <= 2 ^ 33 -> ex <= -20 ->
  n * 2 ^ (- ex) <= mx ->
  mx * 1000000 <= 2 ^ (- ex) * ((n + 1) * 1000000 - 1) ->
  within_unit sx n (binary_round_aux prec emax sx mx ex lx).
Proof.
  intros Hn Hn33 Hex Hlow Hupp. unfold binary_round_aux.
  assert (Hlarge : forall e, e <= -20 -> 1000000 < 2 ^ (- e)).
  { intros e He. apply Z.lt_le_trans with (2 ^ 20); [reflexivity|].
    apply Z.pow_le_mono_r; lia. }
  assert (Hdig : forall m e, 0 <= m -> e <= -20 -> m < (n + 1) * 2 ^ (- e) ->
            fexp prec emax (Zdigits2 m + e) <= -20).
  { intros m e Hm He Hlt. rewrite fexp_binary64.
    assert (Hb : m < 2 ^ (33 - e)).
    { replace (33 - e) with (33 + - e) by lia.
      rewrite pow2_split by lia.
      assert (0 < 2 ^ (- e)) by (apply Z.pow_pos_nonneg; lia).
      apply Z.lt_le_trans with ((n + 1) * 2 ^ (- e)); [exact Hlt|].
      apply Z.mul_le_mono_nonneg_r; lia. }
    pose proof (Zdigits2_le m (33 - e) ltac:(lia) (conj Hm Hb)). lia. }
  assert (Hpos : forall e, 0 < 2 ^ (- e) \/ e > 0).
  { intros e. destruct (Z_le_gt_dec e 0); [left|right; lia].
    apply Z.pow_pos_nonneg; lia. }
  assert (Hmx : 0 <= mx).
  { destruct (Hpos ex) as [H|H]; [|lia]. nia. }
  assert (Hlt : mx < (n + 1) * 2 ^ (- ex)).
  { pose proof (Hlarge ex Hex). nia. }
  pose proof (shr_fexp_bounds mx ex lx Hmx) as [Hm1 He1].
  pose proof (shr_fexp_divides mx ex lx Hmx) as [He1' Hd1].
  pose proof (shr_fexp_div mx ex lx Hmx) as Hq1.
  pose proof (Hdig mx ex Hmx Hex Hlt) as Hf1.
  destruct (shr_fexp prec emax mx ex lx) as [mrs1 e1];
    cbn [fst snd] in Hm1, He1, He1', Hd1, Hq1.
  assert (He1b : e1 <= -20) by lia.
  pose proof (round_nearest_even_bounds (shr_m mrs1) (loc_of_shr_record mrs1)) as Hr.
  set (r := round_nearest_even (shr_m mrs1) (loc_of_shr_record mrs1)) in *.
  assert (Hsplit : 2 ^ (- ex) = 2 ^ (e1 - ex) * 2 ^ (- e1)).
  { rewrite <- pow2_split by lia. f_equal. lia. }
  assert (Hp1 : 0 < 2 ^ (e1 - ex)) by (apply Z.pow_pos_nonneg; lia).
  assert (Hlow1 : n * 2 ^ (- e1) <= shr_m mrs1).
  { rewrite Hq1. apply shift_keeps_unit; lia. }
  assert (Hupp1 : shr_m mrs1 * 1000000 <= 2 ^ (- e1) * ((n + 1) * 1000000 - 1)).
  { apply (Z.mul_le_mono_pos_l _ _ (2 ^ (e1 - ex)) Hp1).
    rewrite Hsplit in Hupp. nia. }
  assert (Hrlt : r < (n + 1) * 2 ^ (- e1)).
  { pose proof (Hlarge e1 He1b). nia. }
  assert (Hr0 : 0 <= r) by lia.
  pose proof (shr_fexp_bounds r e1 loc_Exact Hr0) as [Hm2 He2].
  pose proof (shr_fexp_divides r e1 loc_Exact Hr0) as [He2' Hd2].
  pose proof (shr_fexp_div r e1 loc_Exact Hr0) as Hq2.
  pose proof (Hdig r e1 Hr0 He1b Hrlt) as Hf2.
  destruct (shr_fexp prec emax r e1 loc_Exact) as [mrs2 e2];
    cbn [fst snd] in Hm2, He2, He2', Hd2, Hq2.
  assert (He2b : e2 <= -20) by lia.
  assert (Hsplit2 : 2 ^ (- e1) = 2 ^ (e2 - e1) * 2 ^ (- e2)).
  { rewrite <- pow2_split by lia. f_equal. lia. }
  assert (Hp2 : 0 < 2 ^ (e2 - e1)) by (apply Z.pow_pos_nonneg; lia).
  assert (Hlow2 : n * 2 ^ (- e2) <= shr_m mrs2).
  { rewrite Hq2. apply shift_keeps_unit; lia. }
  assert (Hupp2 : shr_m mrs2 < (n + 1) * 2 ^ (- e2)).
  { apply (Z.mul_lt_mono_pos_l (2 ^ (e2 - e1)) _ _ Hp2).
    rewrite Hsplit2 in Hrlt. nia. }
  assert (Hp3 : 0 < 2 ^ (- e2)) by (apply Z.pow_pos_nonneg; lia).
  destruct (shr_m mrs2) as [|m2|m2] eqn:Em2.
  - unfold within_unit. nia.
  - assert (Hl : (e2 <=? emax - prec) = true)
      by (apply Z.leb_le; unfold emax, prec; lia).
    rewrite Hl. unfold within_unit. repeat split; lia.
  - lia.
Qed.

Lemma SFdiv_core_within_unit (p : positive) :
  Zpos p < 2 ^ 33 * 1000000 ->
  forall q e l,
    SFdiv_core_binary prec emax (Zpos p) 0 1000000 0 = (q, e, l) ->
    e <= -20 /\
    (Zpos p / 1000000) * 2 ^ (- e) <= q /\
    q * 1000000 <= 2 ^ (- e) * ((Zpos p / 1000000 + 1) * 1000000 - 1).
Proof.
  intros Hp q e l. unfold SFdiv_core_binary.
  change (Zdigits2 1000000) with 20.
  rewrite fexp_binary64.
  pose proof (Zdigits2_nonneg (Zpos p)) as Hd0.
  pose proof (Zdigits2_le (Zpos p) 53 ltac:(lia)
                (conj (Pos2Z.is_nonneg p)
                      (Z.lt_trans _ _ _ Hp
                         (eq_refl : 2 ^ 33 * 1000000 < 2 ^ 53)))) as Hd.
  set (d1 := Zdigits2 (Zpos p)) in *.
  set (e' := Z.min (Z.max (d1 + 0 - (20 + 0) - 53) (-1074)) (0 - 0)).
  assert (He' : -73 <= e' <= -20) by (unfold e'; lia).
  destruct (0 - 0 - e') as [|s|s] eqn:Es; try lia.
  rewrite Z.shiftl_mul_pow2 by lia.
  assert (P : 0 < 2 ^ Zpos s) by (apply Z.pow_pos_nonneg; lia).
  pose proof (Z.mul_div_le (Zpos p * 2 ^ Zpos s) 1000000 ltac:(lia)) as Hq1.
  pose proof (Z.mul_div_le (Zpos p) 1000000 ltac:(lia)) as Hn1.
  pose proof (Z.mul_succ_div_gt (Zpos p) 1000000 ltac:(lia)) as Hn2.
  assert (Hq2 : Zpos p / 1000000 * 2 ^ Zpos s <= Zpos p * 2 ^ Zpos s / 1000000).
  { apply Z.div_le_lower_bound; [lia|]. nia. }
  unfold Z.div at 1 in Hq1. unfold Z.div at 2 in Hq2.
  destruct (Z.div_eucl (Zpos p * 2 ^ Zpos s) 1000000) as [q0 r0].
  intros Heq. injection Heq as <- <- <-.
  replace (- e') with (Zpos s) by lia.
  split; [lia|]. split; [exact Hq2|]. nia.
Qed.

Lemma int_of_within_unit (s : bool) (n : Z) (x : float) :
  within_unit s n x -> int_of_float x = Ok (if s then - n else n).
Proof.
  destruct x as [s'|s'| |s' m e]; simpl; try contradiction.
  - intros ->. destruct s; reflexivity.
  - intros [-> [He [Hlo Hhi]]].
    destruct e as [|pe|pe]; try lia.
    rewrite Z.shiftr_div_pow2 by lia.
    change (- Zneg pe) with (Zpos pe) in Hlo, Hhi.
    assert (P : 0 < 2 ^ Zpos pe) by (apply Z.pow_pos_nonneg; lia).
    assert (E : Zpos m / 2 ^ Zpos pe = n).
    { symmetry. apply (Z.div_unique _ _ n (Zpos m - n * 2 ^ Zpos pe)); lia. }
    rewrite E. reflexivity.
Qed.

(* [int(x / 10**6)] is the quotient truncated towards zero, for every int
   [x] of magnitude below [2**33 * 10**6]. *)
Lemma int_truediv_quot (u : Z) :
  - (2 ^ 33 * 1000000) < u < 2 ^ 33 * 1000000 ->
  int_of_float (int_truediv u (10 ^ 6)) = Ok (u ÷ 1000000).
Proof.
  intros Hu. unfold int_truediv. change (10 ^ 6) with 1000000.
  assert (Hn : forall p, Zpos p < 2 ^ 33 * 1000000 ->
            0 <= Zpos p / 1000000 /\ Zpos p / 1000000 + 1 <= 2 ^ 33).
  { intros p Hp. split; [apply Z.div_pos; lia|].
    assert (Zpos p / 1000000 < 2 ^ 33); [|lia].
    apply Z.div_lt_upper_bound; lia. }
  destruct u as [|p|p]; unfold exact_of_int, SFdiv.
  - reflexivity.
  - pose proof (SFdiv_core_within_unit p ltac:(lia)) as H.
    destruct (SFdiv_core_binary prec emax (Zpos p) 0 1000000 0) as [[q e] l].
    destruct (H q e l eq_refl) as [He [Hlo Hhi]].
    destruct (Hn p ltac:(lia)) as [Hn0 Hn1].
    rewrite (int_of_within_unit false (Zpos p / 1000000)).
    + rewrite Z.quot_div_nonneg by lia. reflexivity.
    + apply binary_round_aux_within_unit; assumption.
  - pose proof (SFdiv_core_within_unit p ltac:(lia)) as H.
    destruct (SFdiv_core_binary prec emax (Zpos p) 0 1000000 0) as [[q e] l].
    destruct (H q e l eq_refl) as [He [Hlo Hhi]].
    destruct (Hn p ltac:(lia)) as [Hn0 Hn1].
    rewrite (int_of_within_unit true (Zpos p / 1000000)).
    + change (Zneg p) with (- Zpos p).
      rewrite Z.quot_opp_l by lia.
      rewrite Z.quot_div_nonneg by lia. reflexivity.
    + apply binary_round_aux_within_unit; assumption.
Qed.

End FloatTrunc.

(** ** Exact quotients and products *)

Module FloatExact.
Import Py PyFacts.

Lemma shr_1_double (m : Z) :
  0 <= m -> shr_1 (exact_record (m * 2)) = exact_record m.
Proof.
  intros _. rewrite Z.mul_comm. destruct m as [|q|q]; reflexivity.
Qed.

Lemma iter_shr_1_exact (p : positive) :
  forall m, 0 <= m ->
    iter_pos shr_1 p (exact_record (m * 2 ^ Zpos p)) = exact_record m.
Proof.
  assert (P : forall q, 0 < 2 ^ Zpos q) by (intros; apply Z.pow_pos_nonneg; lia).
  induction p as [p IH|p IH|]; intros m Hm; cbn [iter_pos].
  - pose proof (P p).
    replace (m * 2 ^ Zpos p~1) with (m * 2 ^ Zpos p * 2 ^ Zpos p * 2).
    + rewrite shr_1_double by nia.
      rewrite IH by nia. apply IH; exact Hm.
    + replace (Zpos p~1) with (Zpos p + Zpos p + 1) by lia.
      rewrite !Z.pow_add_r by lia. change (2 ^ 1) with 2. lia.
  - pose proof (P p).
    replace (m * 2 ^ Zpos p~0) with (m * 2 ^ Zpos p * 2 ^ Zpos p).
    + rewrite IH by nia. apply IH; exact Hm.
    + replace (Zpos p~0) with (Zpos p + Zpos p) by lia.
      rewrite Z.pow_add_r by lia. lia.
  - change (2 ^ 1) with 2. apply shr_1_double; exact Hm.
Qed.

(* On a mantissa [a * 2^j] with [a] of at most 53 bits, the shift of
   [shr_fexp] removes zero bits only. *)
Lemma shr_fexp_exact (a j ex : Z) :
  0 < a < 2 ^ 53 -> 0 <= j -> -1074 <= ex + j ->
  exists k, 0 <= k <= j /\
    shr_fexp prec emax (a * 2 ^ j) ex loc_Exact
    = (exact_record (a * 2 ^ (j - k)), ex + k).
Proof.
  intros Ha Hj Hlow. unfold shr_fexp, shr.
  assert (Pj : 0 < 2 ^ j) by (apply Z.pow_pos_nonneg; lia).
  assert (Hb : 0 <= a * 2 ^ j < 2 ^ (53 + j)).
  { rewrite pow2_split by lia. split; [nia|].
    apply Z.mul_lt_mono_pos_r; lia. }
  pose proof (Zdigits2_le (a * 2 ^ j) (53 + j) ltac:(lia) Hb) as Hd.
  rewrite fexp_binary64.
  destruct (Z.max (Zdigits2 (a * 2 ^ j) + ex - 53) (-1074) - ex) as [|p|p] eqn:En.
  - exists 0. split; [lia|]. rewrite Z.sub_0_r, Z.add_0_r. reflexivity.
  - exists (Zpos p). split; [lia|].
    change (shr_record_of_loc (a * 2 ^ j) loc_Exact) with (exact_record (a * 2 ^ j)).
    replace (a * 2 ^ j) with (a * 2 ^ (j - Zpos p) * 2 ^ Zpos p).
    + rewrite iter_shr_1_exact; [reflexivity|].
      assert (0 < 2 ^ (j - Zpos p)) by (apply Z.pow_pos_nonneg; lia). nia.
    + rewrite <- Z.mul_assoc, <- pow2_split by lia. do 2 f_equal. lia.
  - exists 0. split; [lia|]. rewrite Z.sub_0_r, Z.add_0_r. reflexivity.
Qed.

(* Rounding such a number changes nothing but the representation. *)
Lemma binary_round_aux_exact (sx : bool) (a j ex : Z) :
  0 < a < 2 ^ 53 -> 0 <= j -> -1074 <= ex + j -> ex + j <= 971 ->
  exists m e t,
    binary_round_aux prec emax sx (a * 2 ^ j) ex loc_Exact = S754_finite sx m e /\
    0 <= t /\ Zpos m = a * 2 ^ t /\ e + t = ex + j.
Proof.
  intros Ha Hj Hlow Hhigh. unfold binary_round_aux.
  destruct (shr_fexp_exact a j ex Ha Hj Hlow) as [k1 [Hk1 ->]].
  cbn [shr_m exact_record loc_of_shr_record round_nearest_even].
  destruct (shr_fexp_exact a (j - k1) (ex + k1) Ha ltac:(lia) ltac:(lia))
    as [k2 [Hk2 ->]].
  cbn [shr_m exact_record].
  assert (P : 0 < 2 ^ (j - k1 - k2)) by (apply Z.pow_pos_nonneg; lia).
  destruct (a * 2 ^ (j - k1 - k2)) as [|m|m] eqn:Em; try nia.
  assert (Hl : (ex + k1 + k2 <=? emax - prec) = true)
    by (apply Z.leb_le; unfold emax, prec; lia).
  rewrite Hl. exists m, (ex + k1 + k2), (j - k1 - k2).
  repeat split; lia.
Qed.

(* [int] of a float that holds an integer [a * 2^c] in any representation. *)
Lemma int_of_float_integer (sx : bool) (m : positive) (e a t c : Z) :
  0 <= t -> 0 <= c -> Zpos m = a * 2 ^ t -> e + t = c ->
  int_of_float (S754_finite sx m e)
  = Ok (if sx then - (a * 2 ^ c) else a * 2 ^ c).
Proof.
  intros Ht Hc Hm He. unfold int_of_float.
  assert (E : match e with
              | Zneg p => Z.shiftr (Zpos m) (Zpos p)
              | _ => Z.shiftl (Zpos m) e
              end = a * 2 ^ c).
  { destruct e as [|pe|pe].
    - rewrite Z.shiftl_mul_pow2 by lia. rewrite Hm.
      change (2 ^ 0) with 1. replace c with t by lia. lia.
    - rewrite Z.shiftl_mul_pow2 by lia. rewrite Hm.
      rewrite <- Z.mul_assoc, <- pow2_split by lia. do 2 f_equal. lia.
    - rewrite Z.shiftr_div_pow2 by lia. rewrite Hm.
      replace t with (c + Zpos pe) by lia.
      rewrite pow2_split by lia. rewrite Z.mul_assoc.
      apply Z.div_mul.
      assert (0 < 2 ^ Zpos pe) by (apply Z.pow_pos_nonneg; lia). lia. }
  rewrite E. reflexivity.
Qed.

(* The float of [n * 10**6 / 10**6] holds [n]. *)
Lemma truediv_whole (sx : bool) (n : positive) :
  Zpos n < 2 ^ 53 ->
  exists m e t,
    SFdiv prec emax (S754_finite sx (n * 1000000) 0)
                    (S754_finite false 1000000 0)
    = S754_finite sx m e /\
    0 <= t /\ Zpos m = Zpos n * 2 ^ t /\ e + t = 0.
Proof.
  intros Hn. unfold SFdiv, SFdiv_core_binary.
  change (Zdigits2 1000000) with 20.
  rewrite fexp_binary64.
  assert (Hu : 0 <= Zpos (n * 1000000) < 2 ^ 73).
  { rewrite Pos2Z.inj_mul. split; [lia|].
    change (2 ^ 73) with (2 ^ 53 * 2 ^ 20).
    apply Z.mul_lt_mono_nonneg; lia. }
  pose proof (Zdigits2_le _ 73 ltac:(lia) Hu) as Hd.
  pose proof (Zdigits2_nonneg (Zpos (n * 1000000))) as Hd0.
  set (d1 := Zdigits2 (Zpos (n * 1000000))) in *.
  set (e' := Z.min (Z.max (d1 + 0 - (20 + 0) - 53) (-1074)) (0 - 0)).
  assert (He' : -73 <= e' <= 0) by (unfold e'; lia).
  assert (Hm' : match 0 - 0 - e' with
                | 0 => Zpos (n * 1000000)
                | Zpos _ => Z.shiftl (Zpos (n * 1000000)) (0 - 0 - e')
                | Zneg _ => 0
                end = Zpos n * 2 ^ (- e') * 1000000).
  { destruct (0 - 0 - e') as [|s|s] eqn:Es; try lia.
    - replace (- e') with 0 by lia. change (2 ^ 0) with 1.
      rewrite Pos2Z.inj_mul. lia.
    - rewrite Z.shiftl_mul_pow2 by lia.
      replace (- e') with (Zpos s) by lia.
      rewrite Pos2Z.inj_mul. lia. }
  rewrite Hm'.
  pose proof (Z.div_mul (Zpos n * 2 ^ (- e')) 1000000 ltac:(lia)) as Hq.
  pose proof (Z.mod_mul (Zpos n * 2 ^ (- e')) 1000000 ltac:(lia)) as Hr.
  unfold Z.div in Hq. unfold Z.modulo in Hr.
  destruct (Z.div_eucl (Zpos n * 2 ^ (- e') * 1000000) 1000000) as [q r].
  subst q r.
  change (new_location 1000000 0) with loc_Exact.
  rewrite xorb_false_r.
  destruct (binary_round_aux_exact sx (Zpos n) (- e') e'
              ltac:(lia) ltac:(lia) ltac:(lia) ltac:(lia))
    as [m [e [t [-> [Ht [Hm He]]]]]].
  exists m, e, t. repeat split; try assumption. lia.
Qed.

(* [int(n * 10**6 / 10**6)] is [n], for every int of magnitude below
   [2**53]. *)
Lemma int_truediv_whole (n : Z) :
  - 2 ^ 53 < n < 2 ^ 53 ->
  int_of_float (int_truediv (n * 10 ^ 6) (10 ^ 6)) = Ok n.
Proof.
  intros Hn. unfold int_truediv. change (10 ^ 6) with 1000000.
  destruct n as [|p|p]; cbn [Z.mul exact_of_int].
  - reflexivity.
  - destruct (truediv_whole false p ltac:(lia)) as [m [e [t [-> [Ht [Hm He]]]]]].
    rewrite (int_of_float_integer false m e (Zpos p) t 0) by (assumption || lia).
    change (2 ^ 0) with 1. rewrite Z.mul_1_r. reflexivity.
  - destruct (truediv_whole true p ltac:(lia)) as [m [e [t [-> [Ht [Hm He]]]]]].
    rewrite (int_of_float_integer true m e (Zpos p) t 0) by (assumption || lia).
    change (2 ^ 0) with 1. rewrite Z.mul_1_r. reflexivity.
Qed.

(* [int(n * 10**6 / 10**6 * 1000)] is [1000 * n], for every int of
   magnitude below [2**46]. *)
Lemma int_mul_1000_whole (n : Z) :
  - 2 ^ 46 < n < 2 ^ 46 ->
  int_of_float (float_mul (int_truediv (n * 10 ^ 6) (10 ^ 6)) (float_of_int 1000))
  = Ok (1000 * n).
Proof.
  intros Hn. rewrite float_of_int_1000.
  unfold int_truediv, float_mul. change (10 ^ 6) with 1000000.
  assert (H53 : forall p, Zpos p < 2 ^ 46 -> Zpos p < 2 ^ 53).
  { intros p Hp. apply Z.lt_trans with (2 ^ 46); [exact Hp|reflexivity]. }
  assert (Hstep : forall sx p, Zpos p < 2 ^ 46 ->
            int_of_float
              (SFmul prec emax
                 (SFdiv prec emax (S754_finite sx (p * 1000000) 0)
                    (S754_finite false 1000000 0))
                 (S754_finite false 8796093022208000 (-43)))
            = Ok (if sx then - (Zpos p * 125 * 2 ^ 3) else Zpos p * 125 * 2 ^ 3)).
  { intros sx p Hp.
    destruct (truediv_whole sx p (H53 p Hp)) as [m [e [t [-> [Ht [Hm He]]]]]].
    unfold SFmul. rewrite xorb_false_r.
    assert (Hprod : Zpos (m * 8796093022208000)
                    = Zpos p * 125 * 2 ^ (t + 46)).
    { rewrite Pos2Z.inj_mul, Hm, pow2_split by lia.
      change 8796093022208000 with (125 * 2 ^ 46). lia. }
    rewrite Hprod.
    assert (Ha : 0 < Zpos p * 125 < 2 ^ 53).
    { split; [lia|]. change (2 ^ 53) with (2 ^ 46 * 2 ^ 7).
      apply Z.mul_lt_mono_nonneg; try lia. }
    destruct (binary_round_aux_exact sx (Zpos p * 125) (t + 46) (e + -43)
                Ha ltac:(lia) ltac:(lia) ltac:(lia))
      as [m' [e' [t' [-> [Ht' [Hm' He']]]]]].
    apply (int_of_float_integer sx m' e' (Zpos p * 125) t' 3); lia. }
  destruct n as [|p|p]; cbn [Z.mul exact_of_int].
  - reflexivity.
  - rewrite (Hstep false p ltac:(lia)). f_equal.
    change (2 ^ 3) with 8. lia.
  - rewrite (Hstep true p ltac:(lia)). f_equal.
    change (2 ^ 3) with 8. lia.
Qed.

End FloatExact.

(** ** Rounding error of quotients and products *)

Module FloatNear.
Import Py PyFacts FloatTrunc.

(* Rounding a number below [2^L] moves it by less than one unit of the
   exponent it ends with, and that exponent is at most [L - 52]. *)
Lemma binary_round_aux_near (sx : bool) (mx ex : Z) (lx : location) (L Ef : Z) :
  0 <= mx -> ex <= Ef -> L - 52 <= Ef -> -1074 <= Ef -> Ef <= 971 -> Ef <= L ->
  mx < 2 ^ (L - ex) ->
  exists m2 e2,
    binary_round_aux prec emax sx mx ex lx = float_of_pair sx m2 e2 /\
    0 <= m2 /\ ex <= e2 <= Ef /\
    m2 * 2 ^ (e2 - ex) <= mx + 2 ^ (e2 - ex) /\
    mx < (m2 + 1) * 2 ^ (e2 - ex) /\
    m2 <= 2 ^ (L - e2).
Proof.
  intros Hmx Hex HL Hlow Hhigh HEL Hmag. unfold binary_round_aux.
  pose proof (shr_fexp_bounds mx ex lx Hmx) as [Hm1 He1].
  pose proof (shr_fexp_divides mx ex lx Hmx) as [He1' _].
  pose proof (shr_fexp_div mx ex lx Hmx) as Hq1.
  pose proof (Zdigits2_le mx (L - ex) ltac:(lia) (conj Hmx Hmag)) as Hd.
  rewrite fexp_binary64 in He1.
  destruct (shr_fexp prec emax mx ex lx) as [mrs1 e1];
    cbn [fst snd] in Hm1, He1, He1', Hq1.
  assert (He1b : e1 <= Ef) by lia.
  set (A := 2 ^ (e1 - ex)) in *.
  assert (HA : 0 < A) by (apply Z.pow_pos_nonneg; lia).
  pose proof (Z.mul_div_le mx A HA) as Hlo1.
  pose proof (Z.mul_succ_div_gt mx A HA) as Hhi1.
  rewrite <- Hq1 in Hlo1, Hhi1.
  set (m1 := shr_m mrs1) in *.
  assert (Hsp1 : 2 ^ (L - ex) = A * 2 ^ (L - e1)).
  { unfold A. rewrite <- pow2_split by lia. f_equal. lia. }
  assert (Hm1lt : m1 < 2 ^ (L - e1)).
  { apply (Z.mul_lt_mono_pos_l A); [exact HA|]. rewrite <- Hsp1. lia. }
  pose proof (round_nearest_even_bounds m1 (loc_of_shr_record mrs1)) as Hr.
  set (r := round_nearest_even m1 (loc_of_shr_record mrs1)) in *.
  assert (Hr0 : 0 <= r) by lia.
  assert (Hrlt : r < 2 ^ (L - e1 + 1)).
  { rewrite pow2_split by lia. change (2 ^ 1) with 2.
    assert (0 < 2 ^ (L - e1)) by (apply Z.pow_pos_nonneg; lia). lia. }
  pose proof (shr_fexp_bounds r e1 loc_Exact Hr0) as [Hm2 He2].
  pose proof (shr_fexp_divides r e1 loc_Exact Hr0) as [He2' _].
  pose proof (shr_fexp_div r e1 loc_Exact Hr0) as Hq2.
  pose proof (Zdigits2_le r (L - e1 + 1) ltac:(lia) (conj Hr0 Hrlt)) as Hd2.
  rewrite fexp_binary64 in He2.
  destruct (shr_fexp prec emax r e1 loc_Exact) as [mrs2 e2];
    cbn [fst snd] in Hm2, He2, He2', Hq2.
  assert (He2b : e2 <= Ef) by lia.
  set (B := 2 ^ (e2 - e1)) in *.
  assert (HB : 0 < B) by (apply Z.pow_pos_nonneg; lia).
  pose proof (Z.mul_div_le r B HB) as Hlo2.
  pose proof (Z.mul_succ_div_gt r B HB) as Hhi2.
  rewrite <- Hq2 in Hlo2, Hhi2.
  set (m2 := shr_m mrs2) in *.
  assert (HAB : 2 ^ (e2 - ex) = A * B).
  { unfold A, B. rewrite <- pow2_split by lia. f_equal. lia. }
  assert (Hsp2 : 2 ^ (L - e1) = B * 2 ^ (L - e2)).
  { unfold B. rewrite <- pow2_split by lia. f_equal. lia. }
  exists m2, e2. rewrite HAB.
  assert (G1 : m2 * (A * B) <= mx + A * B).
  { assert (B * m2 * A <= (m1 + 1) * A) by (apply Z.mul_le_mono_nonneg_r; lia).
    assert (A * 1 <= A * B) by (apply Z.mul_le_mono_nonneg_l; lia). lia. }
  assert (G2 : mx < (m2 + 1) * (A * B)).
  { assert ((r + 1) * A <= (m2 + 1) * B * A)
      by (apply Z.mul_le_mono_nonneg_r; lia).
    assert ((m1 + 1) * A <= (r + 1) * A)
      by (apply Z.mul_le_mono_nonneg_r; lia).
    lia. }
  assert (G3 : m2 <= 2 ^ (L - e2)).
  { apply (Z.mul_le_mono_pos_l _ _ B HB). rewrite <- Hsp2. lia. }
  repeat split; try lia.
  unfold float_of_pair. fold m2.
  destruct m2 as [|pm|pm] eqn:Em2; try reflexivity.
  assert (Hl : (e2 <=? emax - prec) = true)
    by (apply Z.leb_le; unfold emax, prec; lia).
  rewrite Hl. reflexivity.
Qed.

(* The float of [p / 10**6], for [p] below [2**31 * 10**6]: within one unit
   of its last place of the quotient. *)
Lemma truediv_near (sx : bool) (p : positive) :
  Zpos p < 2 ^ 31 * 1000000 ->
  exists m e,
    SFdiv prec emax (S754_finite sx p 0) (S754_finite false 1000000 0)
    = float_of_pair sx m e /\
    0 <= m /\ e <= -21 /\
    m * 1000000 <= Zpos p * 2 ^ (- e) + 1000000 /\
    Zpos p * 2 ^ (- e) < (m + 1) * 1000000 /\
    m <= 2 ^ (31 - e).
Proof.
  intros Hp. unfold SFdiv, SFdiv_core_binary.
  change (Zdigits2 1000000) with 20.
  rewrite fexp_binary64.
  pose proof (Zdigits2_nonneg (Zpos p)) as Hd0.
  pose proof (Zdigits2_le (Zpos p) 51 ltac:(lia)
                (conj (Pos2Z.is_nonneg p)
                      (Z.lt_trans _ _ _ Hp
                         (eq_refl : 2 ^ 31 * 1000000 < 2 ^ 51)))) as Hd.
  set (d1 := Zdigits2 (Zpos p)) in *.
  set (e' := Z.min (Z.max (d1 + 0 - (20 + 0) - 53) (-1074)) (0 - 0)).
  assert (He' : -73 <= e' <= -22) by (unfold e'; lia).
  destruct (0 - 0 - e') as [|s|s] eqn:Es; try lia.
  rewrite Z.shiftl_mul_pow2 by lia.
  assert (Hs : Zpos s = - e') by lia. rewrite Hs.
  set (T := 2 ^ (- e')) in *.
  assert (HT : 0 < T) by (apply Z.pow_pos_nonneg; lia).
  pose proof (Z.div_pos (Zpos p * T) 1000000 ltac:(lia) ltac:(lia)) as Hq0.
  pose proof (Z.mul_div_le (Zpos p * T) 1000000 ltac:(lia)) as Hqlo.
  pose proof (Z.mul_succ_div_gt (Zpos p * T) 1000000 ltac:(lia)) as Hqhi.
  unfold Z.div in Hq0, Hqlo, Hqhi.
  destruct (Z.div_eucl (Zpos p * T) 1000000) as [q r0].
  rewrite xorb_false_r.
  assert (Hmag : q < 2 ^ (31 - e')).
  { replace (31 - e') with (31 + - e') by lia.
    rewrite pow2_split by lia. fold T. nia. }
  destruct (binary_round_aux_near sx q e' (new_location 1000000 r0) 31 (-21)
              Hq0 ltac:(lia) ltac:(lia) ltac:(lia) ltac:(lia) ltac:(lia) Hmag)
    as [m2 [e2 [-> [Hm0 [He2 [Hup [Hlo Hm2]]]]]]].
  exists m2, e2. repeat split; try lia; try assumption.
  - set (K := 2 ^ (e2 - e')) in *.
    assert (HK : 0 < K) by (apply Z.pow_pos_nonneg; lia).
    assert (HTs : T = K * 2 ^ (- e2)).
    { unfold T, K. rewrite <- pow2_split by lia. f_equal. lia. }
    apply (Z.mul_le_mono_pos_l _ _ K HK). rewrite HTs in Hqlo. nia.
  - set (K := 2 ^ (e2 - e')) in *.
    assert (HK : 0 < K) by (apply Z.pow_pos_nonneg; lia).
    assert (HTs : T = K * 2 ^ (- e2)).
    { unfold T, K. rewrite <- pow2_split by lia. f_equal. lia. }
    apply (Z.mul_lt_mono_pos_l K); [exact HK|]. rewrite HTs in Hqhi. nia.
Qed.

(* The product with 1000, rounded: within one unit of its last place. *)
Lemma mul_1000_near (sx : bool) (pm : positive) (e : Z) :
  e <= -21 -> Zpos pm <= 2 ^ (31 - e) ->
  exists my ey,
    SFmul prec emax (S754_finite sx pm e)
                    (S754_finite false 8796093022208000 (-43))
    = float_of_pair sx my ey /\
    0 <= my /\ e - 43 <= ey <= -11 /\
    my * 2 ^ (ey - (e - 43))
      <= Zpos pm * 8796093022208000 + 2 ^ (ey - (e - 43)) /\
    Zpos pm * 8796093022208000 < (my + 1) * 2 ^ (ey - (e - 43)).
Proof.
  intros He Hm. unfold SFmul. rewrite xorb_false_r.
  assert (Hmag : Zpos (pm * 8796093022208000) < 2 ^ (41 - (e + -43))).
  { rewrite Pos2Z.inj_mul.
    replace (41 - (e + -43)) with ((31 - e) + 53) by lia.
    rewrite pow2_split by lia.
    assert (0 < 2 ^ (31 - e)) by (apply Z.pow_pos_nonneg; lia).
    assert (8796093022208000 < 2 ^ 53) by reflexivity.
    nia. }
  destruct (binary_round_aux_near sx (Zpos (pm * 8796093022208000)) (e + -43)
              loc_Exact 41 (-11)
              ltac:(lia) ltac:(lia) ltac:(lia) ltac:(lia) ltac:(lia) ltac:(lia)
              Hmag)
    as [my [ey [-> [Hy0 [Hey [Hup Hlo']]]]]].
  destruct Hlo' as [Hlo _].
  rewrite Pos2Z.inj_mul in Hup, Hlo.
  replace (ey - (e + -43)) with (ey - (e - 43)) in Hup, Hlo by lia.
  exists my, ey. repeat split; try lia; assumption.
Qed.

(* The arithmetic behind the milliseconds: from the two rounding errors to
   the integer part of the product. *)
Lemma milliseconds_arith (p mx my X Y Z : Z) :
  0 <= p -> 0 <= mx -> 0 <= my ->
  2097152 <= X -> 2048 <= Y -> 1 <= Z ->
  Z * Y = X * 8796093022208 ->
  mx * 1000000 <= p * X + 1000000 ->
  p * X < (mx + 1) * 1000000 ->
  my * Z <= mx * 8796093022208000 + Z ->
  mx * 8796093022208000 < (my + 1) * Z ->
  (p / 1000 - 1) * Y <= my < (p / 1000 + 1) * Y /\
  (p mod 1000 <> 0 -> p / 1000 * Y <= my).
Proof.
  intros Hp Hmx Hmy HX HY HZ HZY U1 L1 U2 L2.
  pose proof (Z.div_mod p 1000 ltac:(lia)) as Hdm.
  pose proof (Z.mod_pos_bound p 1000 ltac:(lia)) as Hrho.
  set (n := p / 1000) in *. set (rho := p mod 1000) in *.
  assert (Hn : 0 <= n) by (apply Z.div_pos; lia).
  assert (HpX : p * X = 1000 * (n * X) + rho * X) by nia.
  assert (HrX : 0 <= rho * X <= 999 * X) by nia.
  assert (HZX : Z * 2048 <= X * 8796093022208) by nia.
  (* the three cases, each by contradiction on a product with [Z] *)
  assert (Ha : my < (n + 1) * Y).
  { destruct (Z_lt_ge_dec my ((n + 1) * Y)) as [H|H]; [exact H|exfalso].
    assert (H3 : (n + 1) * Y * Z <= my * Z)
      by (apply Z.mul_le_mono_nonneg_r; lia).
    assert (H3' : (n + 1) * Y * Z = (n * X + X) * 8796093022208) by nia.
    lia. }
  assert (Hc : (n - 1) * Y <= my).
  { destruct (Z_le_gt_dec ((n - 1) * Y) my) as [H|H]; [exact H|exfalso].
    assert (H3 : (my + 1) * Z <= (n - 1) * Y * Z)
      by (apply Z.mul_le_mono_nonneg_r; lia).
    assert (H3' : (n - 1) * Y * Z = (n * X - X) * 8796093022208) by nia.
    lia. }
  split; [split; assumption|].
  intros Hne.
  destruct (Z_le_gt_dec (n * Y) my) as [H|H]; [exact H|exfalso].
  assert (H3 : (my + 1) * Z <= n * Y * Z)
    by (apply Z.mul_le_mono_nonneg_r; lia).
  assert (H3' : n * Y * Z = n * X * 8796093022208) by nia.
  assert (Hr1 : X <= rho * X) by nia.
  lia.
Qed.

Lemma int_of_float_of_pair (sx : bool) (m e : Z) :
  0 <= m -> e < 0 ->
  int_of_float (float_of_pair sx m e)
  = Ok (if sx then - (m / 2 ^ (- e)) else m / 2 ^ (- e)).
Proof.
  intros Hm He. destruct m as [|pm|pm]; try lia; cbn [float_of_pair int_of_float].
  - rewrite Z.div_0_l; [destruct sx; reflexivity|].
    assert (0 < 2 ^ (- e)) by (apply Z.pow_pos_nonneg; lia). lia.
  - destruct e as [|pe|pe]; try lia.
    rewrite Z.shiftr_div_pow2 by lia. reflexivity.
Qed.

(* [int(p / 10**6 * 1000)] for a positive [p] below [2**31 * 10**6]: the
   whole thousands of [p], or one less when [p] is a multiple of 1000. *)
Lemma int_mul_1000_near_pos (sx : bool) (p : positive) :
  Zpos p < 2 ^ 31 * 1000000 ->
  exists a,
    int_of_float
      (SFmul prec emax
         (SFdiv prec emax (S754_finite sx p 0) (S754_finite false 1000000 0))
         (S754_finite false 8796093022208000 (-43)))
    = Ok (if sx then - a else a) /\
    Zpos p / 1000 - 1 <= a <= Zpos p / 1000 /\
    (Zpos p mod 1000 <> 0 -> a = Zpos p / 1000).
Proof.
  intros Hp.
  destruct (truediv_near sx p Hp) as [m [e [-> [Hm0 [He [U1 [L1 Hmag]]]]]]].
  assert (HX : 2097152 <= 2 ^ (- e)).
  { change 2097152 with (2 ^ 21). apply Z.pow_le_mono_r; lia. }
  destruct m as [|pm|pm]; try lia.
  cbn [float_of_pair].
  destruct (mul_1000_near sx pm e He Hmag)
    as [my [ey [-> [Hy0 [Hey [U2 L2]]]]]].
  assert (HY : 2048 <= 2 ^ (- ey)).
  { change 2048 with (2 ^ 11). apply Z.pow_le_mono_r; lia. }
  assert (HZ : 1 <= 2 ^ (ey - (e - 43))).
  { change 1 with (2 ^ 0). apply Z.pow_le_mono_r; lia. }
  assert (HZY : 2 ^ (ey - (e - 43)) * 2 ^ (- ey) = 2 ^ (- e) * 8796093022208).
  { change 8796093022208 with (2 ^ 43).
    rewrite <- !pow2_split by lia. f_equal. lia. }
  destruct (milliseconds_arith (Zpos p) (Zpos pm) my
              (2 ^ (- e)) (2 ^ (- ey)) (2 ^ (ey - (e - 43)))
              ltac:(lia) ltac:(lia) Hy0 HX HY HZ HZY U1 L1 U2 L2)
    as [[Hlo Hhi] Hex].
  rewrite int_of_float_of_pair by lia.
  exists (my / 2 ^ (- ey)).
  assert (HYp : 0 < 2 ^ (- ey)) by lia.
  split; [reflexivity|]. split; [split|].
  - apply Z.div_le_lower_bound; lia.
  - assert (my / 2 ^ (- ey) < Zpos p / 1000 + 1); [|lia].
    apply Z.div_lt_upper_bound; lia.
  - intros Hne. specialize (Hex Hne).
    assert (Zpos p / 1000 <= my / 2 ^ (- ey))
      by (apply Z.div_le_lower_bound; lia).
    assert (my / 2 ^ (- ey) < Zpos p / 1000 + 1)
      by (apply Z.div_lt_upper_bound; lia).
    lia.
Qed.

(* [int(u / 10**6 * 1000)] for every int [u] of magnitude below
   [2**31 * 10**6]: the thousands of [u] truncated towards zero, or, only
   when [u] is a multiple of 1000, one closer to zero. *)
Lemma int_mul_1000_near (u : Z) :
  - (2 ^ 31 * 1000000) < u < 2 ^ 31 * 1000000 ->
  exists z,
    int_of_float (float_mul (int_truediv u (10 ^ 6)) (float_of_int 1000)) = Ok z /\
    (z = u ÷ 1000 \/ (Z.rem u 1000 = 0 /\ z = u ÷ 1000 - Z.sgn u)).
Proof.
  intros Hu. rewrite float_of_int_1000.
  unfold int_truediv, float_mul. change (10 ^ 6) with 1000000.
  destruct u as [|p|p]; cbn [exact_of_int].
  - exists 0. split; [reflexivity|]. left. reflexivity.
  - destruct (int_mul_1000_near_pos false p ltac:(lia)) as [a [-> [Ha Hex]]].
    exists a. split; [reflexivity|].
    rewrite Z.quot_div_nonneg by lia.
    rewrite Z.rem_mod_nonneg by lia.
    destruct (Z.eq_dec (Zpos p mod 1000) 0) as [E|E].
    + destruct (Z.eq_dec a (Zpos p / 1000)); [left; assumption|right].
      split; [exact E|]. cbn [Z.sgn]. lia.
    + left. apply Hex. exact E.
  - destruct (int_mul_1000_near_pos true p ltac:(lia)) as [a [-> [Ha Hex]]].
    exists (- a). split; [reflexivity|].
    change (Zneg p) with (- Zpos p).
    rewrite Z.quot_opp_l, Z.rem_opp_l by lia.
    rewrite Z.quot_div_nonneg by lia.
    rewrite Z.rem_mod_nonneg by lia.
    destruct (Z.eq_dec (Zpos p mod 1000) 0) as [E|E].
    + destruct (Z.eq_dec a (Zpos p / 1000)); [left; lia|right].
      split; [lia|]. cbn [Z.sgn Z.opp]. lia.
    + left. specialize (Hex E). lia.
Qed.

End FloatNear.

(** ** Facts about the SET options *)

Module CoreFacts.
Import Py Core PyFacts FloatTrunc FloatExact FloatNear.

Lemma int_of_float_modelled (x : float) : int_of_float x <> Raise NotModelled.
Proof. destruct x; simpl; discriminate. Qed.

Lemma naive_timestamp_modelled (nd : naive_datetime) :
  naive_timestamp nd <> Raise NotModelled.
Proof.
  unfold naive_timestamp. destruct (host_mktime nd) as [[ | | ]|s];
    discriminate.
Qed.

(* The chain leaves an int, a bool or None in [value] once the type test of
   line 60 has passed. *)
Lemma expiry_chain_scalar (m : ExpiryType) (v : PyValue) (c : string) (n : PyValue) :
  isinstance v (accepted_types m) = true ->
  expiry_chain m v = Ok (c, n) ->
  c = redis_keyword m /\
  (n = PyNone \/ (exists b, n = PyBool b) \/ (exists z, n = PyInt z)).
Proof.
  intros Hacc Hch.
  destruct m, v; simpl in Hacc; try discriminate; unfold expiry_chain in Hch;
    try (injection Hch as <- <-; split; eauto);
    repeat match type of Hch with
    | bind ?r _ = _ => destruct r as [?|?]; cbn [bind] in Hch; try discriminate
    end;
    injection Hch as <- <-; split; eauto.
Qed.

Lemma expiry_chain_modelled (m : ExpiryType) (v : PyValue) :
  expiry_chain m v <> Raise NotModelled.
Proof.
  intros H.
  destruct m, v; unfold expiry_chain in H; try discriminate;
    try (pose proof (naive_timestamp_modelled nd) as Hn;
         destruct (naive_timestamp nd) as [x|e]; cbn [bind] in H;
         [|congruence]);
    match type of H with
    | bind (int_of_float ?x) _ = _ =>
        pose proof (int_of_float_modelled x);
        destruct (int_of_float x) as [z|e']; cbn [bind] in H; congruence
    end.
Qed.

(* The embedding covers every run of the constructor. *)
Lemma set_expiry_type_and_value_modelled (m : ExpiryType) (v : PyValue) :
  set_expiry_type_and_value m v <> Raise NotModelled.
Proof.
  unfold set_expiry_type_and_value.
  destruct (isinstance v (accepted_types m)) eqn:Hacc; cbn [negb];
    [|discriminate].
  pose proof (expiry_chain_modelled m v) as Hm.
  destruct (expiry_chain m v) as [[c n]|e] eqn:Hch; cbn [bind fst snd];
    [|congruence].
  destruct (expiry_chain_scalar m v c n Hacc Hch) as [_ [->|[[b ->]|[z ->]]]];
    unfold str_if_truthy; cbn [truthy].
  - discriminate.
  - destruct b; cbn [bind py_str]; discriminate.
  - destruct (z =? 0); cbn [negb bind py_str]; [discriminate|].
    unfold str_of_int. destruct (Z.abs z <? str_digits_limit);
      cbn [bind]; discriminate.
Qed.

(* On an accepted, well-formed value that does not depend on the host the
   chain returns, and the int it leaves is one that [str] converts when the
   int given is. *)
Lemma expiry_chain_returns (m : ExpiryType) (v : PyValue) :
  value_wf v -> host_independent v ->
  isinstance v (accepted_types m) = true ->
  exists n,
    expiry_chain m v = Ok (redis_keyword m, n) /\
    ((forall z, v = PyInt z -> Z.abs z < str_digits_limit) ->
     forall z, n = PyInt z -> Z.abs z < str_digits_limit).
Proof.
  intros Hwf Hind Hacc.
  destruct m, v; simpl in Hacc; try discriminate; simpl in Hwf;
    try contradiction;
    unfold expiry_chain, redis_keyword;
    try (eexists; split; [reflexivity|]; intros Hv z0 E;
         first [discriminate E | apply Hv; exact E]).
  - destruct (int_total_seconds_small td Hwf) as [z [-> Hz]]. cbn [bind].
    eexists; split; [reflexivity|]. intros _ z0 E. injection E as <-. exact Hz.
  - destruct (int_total_milliseconds_small td Hwf) as [z [-> Hz]]. cbn [bind].
    eexists; split; [reflexivity|]. intros _ z0 E. injection E as <-. exact Hz.
  - unfold timestamp.
    destruct (int_total_seconds_small (minus_EPOCH dt) Hwf) as [z [-> Hz]].
    cbn [bind].
    eexists; split; [reflexivity|]. intros _ z0 E. injection E as <-. exact Hz.
  - unfold timestamp.
    destruct (int_total_milliseconds_small (minus_EPOCH dt) Hwf) as [z [-> Hz]].
    cbn [bind].
    eexists; split; [reflexivity|]. intros _ z0 E. injection E as <-. exact Hz.
Qed.

Lemma keep_ttl_accepts_only_None (v : PyValue) :
  isinstance v (accepted_types KEEP_TTL) = true -> v = PyNone.
Proof. destruct v; simpl; intros H; try discriminate; reflexivity. Qed.

Lemma quot_abs_le (a b : Z) : 0 < b -> Z.abs (a ÷ b) <= Z.abs a.
Proof.
  intros Hb. rewrite <- Z.quot_abs by lia.
  rewrite (Z.abs_eq b) by lia.
  rewrite Z.quot_div_nonneg by lia.
  apply Z.div_le_upper_bound; [lia|].
  pose proof (Z.abs_nonneg a). nia.
Qed.

Lemma whole_seconds_quot (us : Z) :
  Z.rem us 1000000 = 0 ->
  us = (us ÷ 1000000) * 10 ^ 6 /\ us ÷ 1000 = 1000 * (us ÷ 1000000).
Proof.
  intros H. pose proof (Z.quot_rem' us 1000000) as E. rewrite H in E.
  change (10 ^ 6) with 1000000. split; [lia|].
  set (n := us ÷ 1000000) in *.
  replace us with (1000 * n * 1000) by lia.
  apply Z.quot_mul. lia.
Qed.

(* The float conversions against the truncation of the specification, on a
   count of microseconds in the ranges of [count_exact]. *)
Lemma seconds_follow_spec (us : Z) :
  seconds_exact us ->
  int_of_float (int_truediv us (10 ^ 6)) = Ok (us ÷ 1000000).
Proof. unfold seconds_exact. intros H. apply int_truediv_quot. lia. Qed.

Lemma milliseconds_follow_spec (us : Z) :
  milliseconds_exact us ->
  int_of_float (float_mul (int_truediv us (10 ^ 6)) (float_of_int 1000))
  = Ok (us ÷ 1000).
Proof.
  intros [[Hrem Hb]|[Hrem Hb]].
  - destruct (whole_seconds_quot us Hrem) as [E1 E2].
    rewrite E2. rewrite E1 at 1.
    apply int_mul_1000_whole.
    assert (Z.abs us = Z.abs (us ÷ 1000000) * 1000000).
    { rewrite E1 at 1. change (10 ^ 6) with 1000000.
      rewrite Z.abs_mul. reflexivity. }
    lia.
  - destruct (int_mul_1000_near us ltac:(lia)) as [z [Hz [->|[E _]]]];
      [exact Hz|contradiction].
Qed.

(* The code's normalisation is the one of the specification on the values
   that [conversion_exact] covers. *)
Lemma normalized_follows_spec (m : ExpiryType) (v : PyValue) :
  isinstance v (accepted_types m) = true ->
  conversion_exact m v ->
  normalized m v = Ok (spec_normalize m v).
Proof.
  intros Hacc Hex. unfold normalized.
  destruct m, v; simpl in Hacc; try discriminate; simpl in Hex;
    try contradiction; try reflexivity;
    unfold expiry_chain, spec_normalize, timestamp, total_seconds;
    first [ rewrite (seconds_follow_spec _ Hex)
          | rewrite (milliseconds_follow_spec _ Hex) ];
    reflexivity.
Qed.

(* The ints the specification's normalisation gives are ones that [str]
   converts. *)
Lemma spec_normalize_small (m : ExpiryType) (v : PyValue) (z : Z) :
  isinstance v (accepted_types m) = true ->
  conversion_exact m v ->
  spec_normalize m v = PyInt z ->
  Z.abs z < str_digits_limit.
Proof.
  intros Hacc Hex E.
  assert (Hq : forall us k, 0 < k -> Z.abs us < 2 ^ 46 * 1000000 ->
            Z.abs (us ÷ k) < str_digits_limit).
  { intros us k Hk Hb. pose proof (quot_abs_le us k Hk).
    apply Z.lt_trans with (2 ^ 822); [|exact pow_822_below_limit].
    assert (2 ^ 46 * 1000000 < 2 ^ 822) by (vm_compute; reflexivity). lia. }
  assert (Hs : forall us, seconds_exact us -> Z.abs us < 2 ^ 46 * 1000000).
  { unfold seconds_exact. intros us H.
    assert (2 ^ 33 * 1000000 < 2 ^ 46 * 1000000) by (vm_compute; reflexivity).
    lia. }
  assert (Hm : forall us, milliseconds_exact us -> Z.abs us < 2 ^ 46 * 1000000).
  { unfold milliseconds_exact. intros us [[_ H]|[_ H]]; [exact H|].
    assert (2 ^ 31 * 1000000 < 2 ^ 46 * 1000000) by (vm_compute; reflexivity).
    lia. }
  destruct m, v; simpl in Hacc; try discriminate; simpl in Hex;
    try contradiction; simpl in E; try discriminate;
    injection E as <-; auto; apply Hq; auto; lia.
Qed.

(** C3, as stated: the int 0 is not an empty value, it is accepted under
    SEC and is its own normal form, with the string "0"; yet the tokens are
    [["EX"]], not [["EX"; "0"]]. *)
Lemma zero_is_dropped_though_not_empty :
  exists e,
    ExpirySet_init SEC (PyInt 0) = Ok e /\
    PyInt 0 <> PyNone /\
    isinstance (PyInt 0) (accepted_types SEC) = true /\
    spec_normalize SEC (PyInt 0) = PyInt 0 /\
    py_str (PyInt 0) = Ok "0" /\
    get_cmd_args e = ["EX"] /\
    get_cmd_args e <> ["EX"; "0"].
Proof.
  eexists. split; [reflexivity|].
  repeat split; discriminate.
Qed.

(** C3, amended.  For every expiry type [m] and every value [v] that
    passes the type test of [m] and that [conversion_exact] covers (an int
    of at most 4300 digits, a bool, None, and a timedelta or an aware
    datetime in the ranges where the float conversion is exact), the
    constructor returns an object whose normalised value is the one of the
    specification, [spec_normalize m v], and whose [get_cmd_args] is
    [[keyword m]] when that value is None, 0 or False and
    [[keyword m; str n]] for that value [n] otherwise; with KEEP_TTL the
    tokens are always [["KEEPTTL"]]. *)
Theorem expiry_tokens_follow_truncation (m : ExpiryType) (v : PyValue) :
  isinstance v (accepted_types m) = true ->
  conversion_exact m v ->
  exists e,
    ExpirySet_init m v = Ok e /\
    expiry_type e = m /\
    cmd_arg e = redis_keyword m /\
    normalized m v = Ok (spec_normalize m v) /\
    ((truthy (spec_normalize m v) = false /\ value e = None /\
      get_cmd_args e = [redis_keyword m]) \/
     (truthy (spec_normalize m v) = true /\
      exists s, py_str (spec_normalize m v) = Ok s /\ value e = Some s /\
                get_cmd_args e = [redis_keyword m; s])) /\
    (m = KEEP_TTL -> get_cmd_args e = ["KEEPTTL"]).
Proof.
  intros Hacc Hex.
  pose proof (normalized_follows_spec m v Hacc Hex) as Hn.
  pose proof (spec_normalize_small m v) as Hsmall.
  specialize (fun z => Hsmall z Hacc Hex).
  unfold normalized in Hn.
  destruct (expiry_chain m v) as [[c n]|exc] eqn:Hch;
    cbn [bind snd] in Hn; [|discriminate].
  injection Hn as Hn. subst n.
  destruct (expiry_chain_scalar m v c _ Hacc Hch) as [-> Hsc].
  assert (Hk : m = KEEP_TTL -> spec_normalize m v = PyNone).
  { intros ->. rewrite (keep_ttl_accepts_only_None v Hacc). reflexivity. }
  unfold ExpirySet_init, set_expiry_type_and_value, normalized.
  rewrite Hacc, Hch. cbn [negb bind fst snd]. unfold str_if_truthy.
  destruct Hsc as [E|[[b E]|[z E]]]; rewrite E in *; cbn [truthy].
  - eexists. repeat split; eauto. intros ->. reflexivity.
  - destruct b; cbn [bind py_str].
    + eexists. repeat split; eauto.
      * right. split; [reflexivity|]. eexists. repeat split; reflexivity.
      * intros Em. specialize (Hk Em). discriminate.
    + eexists. repeat split; eauto.
      intros Em. specialize (Hk Em). discriminate.
  - destruct (z =? 0) eqn:Ez; cbn [negb bind py_str].
    + eexists. repeat split; eauto.
      intros Em. specialize (Hk Em). discriminate.
    + rewrite (str_of_int_small z (Hsmall z eq_refl)). cbn [bind].
      eexists. repeat split; eauto.
      * right. split; [reflexivity|]. eexists. repeat split; reflexivity.
      * intros Em. specialize (Hk Em). discriminate.
Qed.

Lemma expiry_tokens_follow_truncation_witness :
  exists e,
    ExpirySet_init MILLSEC (PyTimedelta (mk_timedelta 0 1 500700)) = Ok e /\
    expiry_type e = MILLSEC /\
    cmd_arg e = redis_keyword MILLSEC /\
    normalized MILLSEC (PyTimedelta (mk_timedelta 0 1 500700))
    = Ok (spec_normalize MILLSEC (PyTimedelta (mk_timedelta 0 1 500700))) /\
    ((truthy (spec_normalize MILLSEC (PyTimedelta (mk_timedelta 0 1 500700)))
      = false /\ value e = None /\
      get_cmd_args e = [redis_keyword MILLSEC]) \/
     (truthy (spec_normalize MILLSEC (PyTimedelta (mk_timedelta 0 1 500700)))
      = true /\
      exists s,
        py_str (spec_normalize MILLSEC (PyTimedelta (mk_timedelta 0 1 500700)))
        = Ok s /\ value e = Some s /\
        get_cmd_args e = [redis_keyword MILLSEC; s])) /\
    (MILLSEC = KEEP_TTL -> get_cmd_args e = ["KEEPTTL"]).
Proof.
  apply (expiry_tokens_follow_truncation MILLSEC
           (PyTimedelta (mk_timedelta 0 1 500700))).
  - reflexivity.
  - right. vm_compute. split; [discriminate|reflexivity].
Defined.

(* The tokens of KEEP_TTL, run. *)
Example keep_ttl_tokens :
  exists e, ExpirySet_init KEEP_TTL PyNone = Ok e /\
            get_cmd_args e = ["KEEPTTL"].
Proof. eexists. split; reflexivity. Qed.

(* A bool passes the type test of the four modes that accept an int. *)
Example bool_passes_as_int :
  exists e, ExpirySet_init SEC (PyBool true) = Ok e /\
            get_cmd_args e = ["EX"; "True"].
Proof. eexists. split; reflexivity. Qed.

(** C4, as stated: the type of True is bool, which is not among the
    accepted types of SEC, int and timedelta; yet the constructor accepts
    True under SEC, and the tokens are [["EX"; "True"]]. *)
Lemma bool_is_accepted_though_not_listed :
  ~ In (type_of (PyBool true)) (accepted_types SEC) /\
  exists e,
    ExpirySet_init SEC (PyBool true) = Ok e /\
    get_cmd_args e = ["EX"; "True"].
Proof.
  split.
  - simpl. intros [H|[H|[]]]; discriminate.
  - eexists. split; reflexivity.
Qed.

(** C4, amended.  For every expiry type [m] and every value [v] that fails
    the type test of [m] (the [isinstance] test of line 60, under which an
    instance of a subclass passes, so a bool counts as an int), and for
    every value other than None given to KEEP_TTL, the
    constructor raises ValueError (the spec's InvalidOptionValue) and makes
    no object; a call of [set] whose expiry argument is such a construction
    raises the same error and leaves the connection's world untouched, so
    nothing is dispatched. *)
Theorem expiry_rejects_unaccepted (m : ExpiryType) (v : PyValue) :
  isinstance v (accepted_types m) = false \/ (m = KEEP_TTL /\ v <> PyNone) ->
  ExpirySet_init m v = Raise ValueError /\
  (forall e, ExpirySet_init m v <> Ok e) /\
  (forall (W : Type) (self : Executor W) key value c rov (w : W),
     set_constructing_expiry key value c m v rov w = (Raise ValueError, w)).
Proof.
  intros H.
  assert (Hacc : isinstance v (accepted_types m) = false).
  { destruct H as [H|[-> Hv]]; [exact H|].
    destruct v; try reflexivity. contradiction. }
  assert (Hr : ExpirySet_init m v = Raise ValueError).
  { unfold ExpirySet_init, set_expiry_type_and_value. rewrite Hacc. reflexivity. }
  split; [exact Hr|]. split.
  - intros e. rewrite Hr. discriminate.
  - intros. unfold set_constructing_expiry. rewrite Hr. reflexivity.
Qed.

Lemma expiry_rejects_unaccepted_witness :
  ExpirySet_init KEEP_TTL (PyInt 5) = Raise ValueError /\
  (forall e, ExpirySet_init KEEP_TTL (PyInt 5) <> Ok e) /\
  (forall (W : Type) (self : Executor W) key value c rov (w : W),
     set_constructing_expiry key value c KEEP_TTL (PyInt 5) rov w
     = (Raise ValueError, w)).
Proof.
  apply (expiry_rejects_unaccepted KEEP_TTL (PyInt 5)).
  left. reflexivity.
Defined.

(* Rejections, run: a float and a datetime under SEC, a timedelta under
   UNIX_SEC, None under SEC, the int 0 under KEEP_TTL. *)
Example rejected_values :
  ExpirySet_init SEC (PyFloat (float_of_int 5)) = Raise ValueError /\
  ExpirySet_init SEC (PyDatetime (mk_datetime (mk_timedelta 19675 0 0)))
    = Raise ValueError /\
  ExpirySet_init UNIX_SEC (PyTimedelta (mk_timedelta 0 5 0)) = Raise ValueError /\
  ExpirySet_init SEC PyNone = Raise ValueError /\
  ExpirySet_init KEEP_TTL (PyInt 0) = Raise ValueError.
Proof. repeat split; reflexivity. Qed.

(* The examples of the specification, run: five seconds under SEC, five
   thousand milliseconds under MILLSEC, and fractions that are dropped, not
   rounded (5.9 s, 1500.7 ms, a datetime 0.9 s after a full second). *)
Example normalization_examples :
  (exists e, ExpirySet_init SEC (PyTimedelta (mk_timedelta 0 5 0)) = Ok e /\
             get_cmd_args e = ["EX"; "5"]) /\
  (exists e, ExpirySet_init MILLSEC (PyTimedelta (mk_timedelta 0 5 0)) = Ok e /\
             get_cmd_args e = ["PX"; "5000"]) /\
  (exists e, ExpirySet_init SEC (PyTimedelta (mk_timedelta 0 5 900000)) = Ok e /\
             get_cmd_args e = ["EX"; "5"]) /\
  (exists e, ExpirySet_init MILLSEC (PyTimedelta (mk_timedelta 0 1 500700)) = Ok e /\
             get_cmd_args e = ["PX"; "1500"]) /\
  (exists e, ExpirySet_init UNIX_SEC
               (PyDatetime (mk_datetime (mk_timedelta 19675 0 900000))) = Ok e /\
             get_cmd_args e = ["EXAT"; "1699920000"]) /\
  (exists e, ExpirySet_init UNIX_MILLSEC
               (PyDatetime (mk_datetime (mk_timedelta 19675 0 900000))) = Ok e /\
             get_cmd_args e = ["PXAT"; "1699920000900"]).
Proof. repeat split; eexists; split; vm_compute; reflexivity. Qed.

(** C5.  The code at timedelta(seconds=1, milliseconds=1) under MILLSEC: the
    duration is 1001 ms exactly, with no fraction of a millisecond;
    [total_seconds] is the float nearest to 1.001, its product with 1000 is
    a float below 1001, and [int] truncates it to 1000, so the tokens are
    [["PX"; "1000"]] and not [["PX"; "1001"]]. *)
Theorem millsec_of_1001_ms :
  total_microseconds (mk_timedelta 0 1 1000) = 1001 * 1000 /\
  total_seconds (mk_timedelta 0 1 1000)
    = S754_finite false 4508103226997866 (-52) /\
  float_mul (total_seconds (mk_timedelta 0 1 1000)) (float_of_int 1000)
    = S754_finite false 8804889115230207 (-43) /\
  8804889115230207 < 1001 * 2 ^ 43 /\
  normalized MILLSEC (PyTimedelta (mk_timedelta 0 1 1000)) = Ok (PyInt 1000) /\
  exists e,
    ExpirySet_init MILLSEC (PyTimedelta (mk_timedelta 0 1 1000)) = Ok e /\
    get_cmd_args e = ["PX"; "1000"].
Proof.
  repeat split; try (vm_compute; reflexivity).
  eexists. split; vm_compute; reflexivity.
Qed.

(** C10.  For every expiry type other than KEEP_TTL, when the accepted value
    normalises to the int 0 the constructed object holds no value string and
    [get_cmd_args] is [[keyword]] alone. *)
Theorem zero_expiry_has_no_value_token (m : ExpiryType) (v : PyValue) :
  m <> KEEP_TTL ->
  isinstance v (accepted_types m) = true ->
  normalized m v = Ok (PyInt 0) ->
  exists e,
    ExpirySet_init m v = Ok e /\
    value e = None /\
    get_cmd_args e = [redis_keyword m].
Proof.
  intros _ Hacc Hn.
  unfold normalized in Hn.
  destruct (expiry_chain m v) as [[c n]|exc] eqn:Hch; simpl in Hn; [|discriminate].
  injection Hn as ->.
  destruct (expiry_chain_scalar m v c _ Hacc Hch) as [-> _].
  unfold ExpirySet_init, set_expiry_type_and_value.
  rewrite Hacc, Hch. simpl.
  eexists. repeat split; reflexivity.
Qed.

Lemma zero_expiry_has_no_value_token_witness :
  exists e,
    ExpirySet_init SEC (PyTimedelta (mk_timedelta 0 0 999999)) = Ok e /\
    value e = None /\
    get_cmd_args e = [redis_keyword SEC].
Proof.
  apply (zero_expiry_has_no_value_token SEC (PyTimedelta (mk_timedelta 0 0 999999))).
  - discriminate.
  - reflexivity.
  - vm_compute. reflexivity.
Defined.

(* Every duration shorter than one second, of either sign, under SEC. *)
Lemma sub_second_duration_has_no_value_token (td : timedelta) :
  - 1000000 < total_microseconds td < 1000000 ->
  normalized SEC (PyTimedelta td) = Ok (PyInt 0) /\
  exists e,
    ExpirySet_init SEC (PyTimedelta td) = Ok e /\
    value e = None /\
    get_cmd_args e = ["EX"].
Proof.
  intros H. pose proof (int_truediv_below_one _ H) as Hz.
  unfold normalized, ExpirySet_init, set_expiry_type_and_value, expiry_chain,
    total_seconds.
  rewrite Hz. split; [reflexivity|].
  eexists. repeat split; reflexivity.
Qed.

(* The int 0 under each of the four modes, run. *)
Example zero_int_tokens :
  (exists e, ExpirySet_init SEC (PyInt 0) = Ok e /\ get_cmd_args e = ["EX"]) /\
  (exists e, ExpirySet_init MILLSEC (PyInt 0) = Ok e /\ get_cmd_args e = ["PX"]) /\
  (exists e, ExpirySet_init UNIX_SEC (PyInt 0) = Ok e /\ get_cmd_args e = ["EXAT"]) /\
  (exists e, ExpirySet_init UNIX_MILLSEC (PyInt 0) = Ok e /\
             get_cmd_args e = ["PXAT"]).
Proof. repeat split; eexists; split; reflexivity. Qed.

(** ** Facts about the [CoreCommands] mixin *)

(* What the test double has logged after one dispatch. *)
Lemma recording_run (reply : RequestType -> list string -> result PyValue)
  (rt : RequestType) (args : list string) (log : Log) :
  @execute_command _ (recording reply) rt args log
  = (reply rt args, log ++ [(rt, args)]).
Proof. reflexivity. Qed.

(** C1, as stated: the list that [set] builds for key "k", value "v",
    ONLY_IF_EXISTS, ExpirySet(SEC, 5) and return_old_value=True is not
    [["SET"; "k"; "v"; "XX"; "GET"; "EX"; "5"]]. *)
Lemma set_example_not_SET_prefixed :
  exists e,
    ExpirySet_init SEC (PyInt 5) = Ok e /\
    set_args "k" "v" (Some ONLY_IF_EXISTS) (Some e) true
    <> ["SET"; "k"; "v"; "XX"; "GET"; "EX"; "5"].
Proof. eexists. split; [reflexivity|]. simpl. discriminate. Qed.

(** C1, amended.  For key "k", value "v", ONLY_IF_EXISTS, ExpirySet(SEC, 5)
    and return_old_value=True, [set] builds exactly the argument list
    [["k"; "v"; "XX"; "GET"; "EX"; "5"]] and dispatches it under the
    SetString identifier; the command name is carried by the identifier and
    is not a token of the list. *)
Theorem set_example_tokens :
  exists e,
    ExpirySet_init SEC (PyInt 5) = Ok e /\
    set_args "k" "v" (Some ONLY_IF_EXISTS) (Some e) true
    = ["k"; "v"; "XX"; "GET"; "EX"; "5"] /\
    (forall (W : Type) (self : Executor W) (w : W),
       set "k" "v" (Some ONLY_IF_EXISTS) (Some e) true w
       = execute_command SetString ["k"; "v"; "XX"; "GET"; "EX"; "5"] w) /\
    (forall reply,
       snd (@set _ (recording reply) "k" "v" (Some ONLY_IF_EXISTS) (Some e) true [])
       = [(SetString, ["k"; "v"; "XX"; "GET"; "EX"; "5"])]).
Proof.
  eexists. split; [reflexivity|]. repeat split; reflexivity.
Qed.

Lemma set_args_in_order (key value : string) (c : option ConditionalSet)
  (expiry : option ExpirySet) (rov : bool) :
  set_args key value c expiry rov
  = [key; value]
    ++ match c with Some c => [ConditionalSet_token c] | None => [] end
    ++ (if rov then ["GET"] else [])
    ++ match expiry with Some e => get_cmd_args e | None => [] end.
Proof.
  unfold set_args.
  destruct c as [[ | ]|], rov, expiry as [e|]; simpl;
    rewrite ?app_nil_r; reflexivity.
Qed.

(** C2.  For every key, value, optional conditional mode, optional expiry
    and return_old_value, [set] dispatches under SetString the list made
    of key, value, the mode's token when a mode is given ("XX" for
    ONLY_IF_EXISTS, "NX" for ONLY_IF_DOES_NOT_EXIST, two different tokens),
    "GET" when return_old_value holds, and the expiry's tokens when an
    expiry is given, in this order. *)
Theorem set_dispatches_in_order (W : Type) (self : Executor W)
  (key value : string) (c : option ConditionalSet)
  (expiry : option ExpirySet) (rov : bool) (w : W) :
  set key value c expiry rov w
  = execute_command SetString
      ([key; value]
       ++ match c with Some c => [ConditionalSet_token c] | None => [] end
       ++ (if rov then ["GET"] else [])
       ++ match expiry with Some e => get_cmd_args e | None => [] end) w
  /\ ConditionalSet_token ONLY_IF_EXISTS = "XX"
  /\ ConditionalSet_token ONLY_IF_DOES_NOT_EXIST = "NX"
  /\ ConditionalSet_token ONLY_IF_EXISTS
     <> ConditionalSet_token ONLY_IF_DOES_NOT_EXIST.
Proof.
  split.
  - unfold set. rewrite set_args_in_order. reflexivity.
  - repeat split. discriminate.
Qed.

(** C8.  For every list of tokens, [custom_command] hands exactly that list
    to the dispatch adapter under the CustomCommand identifier and returns
    what the adapter returns, result and world; on the test double, the one
    request logged carries the caller's list unchanged. *)
Theorem custom_command_forwards :
  (forall (W : Type) (self : Executor W) (command_args : list string) (w : W),
     custom_command command_args w
     = execute_command CustomCommand command_args w) /\
  (forall reply (command_args : list string) (log : Log),
     @custom_command _ (recording reply) command_args log
     = (reply CustomCommand command_args,
        log ++ [(CustomCommand, command_args)])).
Proof. split; reflexivity. Qed.

(** C9.  For every key, [get] dispatches the one-token list [[key]] under
    the GetString identifier and returns what the adapter returns: the
    stored string, or None, which is a value different from the empty
    string. *)
Theorem get_dispatches_key :
  (forall (W : Type) (self : Executor W) (key : string) (w : W),
     get key w = execute_command GetString [key] w) /\
  (forall reply (key : string) (log : Log),
     @get _ (recording reply) key log
     = (reply GetString [key], log ++ [(GetString, [key])])) /\
  (forall (key : string) (log : Log),
     fst (@get _ (recording (fun _ _ => Ok PyNone)) key log)
     <> fst (@get _ (recording (fun _ _ => Ok (PyStr ""))) key log)).
Proof.
  repeat split. intros key log. simpl. discriminate.
Qed.

End CoreFacts.

(** ** Facts about [ft.py] *)

Module FtFacts.
Import Py Core Ft.

Section Commands.
Context {W : Type} {client : GlideClient W}.
Context {Field FtCreateOptions : Type}.
Context {Field_toArgs : ToArgs Field}.
Context {FtCreateOptions_toArgs : ToArgs FtCreateOptions}.

(* The loop of [create]: extending [args] field by field appends the
   fields' tokens in the order of the schema. *)
Lemma extend_fields (schema : list Field) :
  forall args : list TEncodable,
    fold_left (fun args field => args ++ toArgs field) schema args
    = args ++ List.concat (map toArgs schema).
Proof.
  induction schema as [|field schema IH]; intros args; simpl.
  - rewrite app_nil_r. reflexivity.
  - rewrite IH, <- app_assoc. reflexivity.
Qed.

Lemma create_args_shape (indexName : TEncodable) (schema : list Field)
  (options : option FtCreateOptions) :
  create_args indexName schema options
  = [CommandNames.FT_CREATE; indexName]
    ++ match options with Some o => toArgs o | None => [] end
    ++ match schema with
       | [] => []
       | _ :: _ => FtCreateKeywords.SCHEMA :: List.concat (map toArgs schema)
       end.
Proof.
  unfold create_args.
  destruct schema as [|field schema].
  - destruct options; simpl; rewrite ?app_nil_r; reflexivity.
  - rewrite extend_fields.
    destruct options; simpl; rewrite <- ?app_assoc; reflexivity.
Qed.
End Commands.

(** C6.  For every index name, schema and optional options object, [create]
    hands to the client the command keyword, the index name, the options'
    tokens when options are given, and, only when the schema is not empty,
    the keyword SCHEMA followed by the tokens of every field in the order
    of the schema; with an empty schema the list ends after the options'
    tokens, with no SCHEMA keyword and no schema block. *)
Theorem create_emits (W : Type) (client : GlideClient W)
  (Field FtCreateOptions : Type)
  (Field_toArgs : ToArgs Field) (FtCreateOptions_toArgs : ToArgs FtCreateOptions)
  (indexName : TEncodable) (schema : list Field)
  (options : option FtCreateOptions) (w : W) :
  create indexName schema options w
  = custom_command
      ([CommandNames.FT_CREATE; indexName]
       ++ match options with Some o => toArgs o | None => [] end
       ++ match schema with
          | [] => []
          | _ :: _ => FtCreateKeywords.SCHEMA :: List.concat (map toArgs schema)
          end) w
  /\ create indexName [] options w
     = custom_command
         ([CommandNames.FT_CREATE; indexName]
          ++ match options with Some o => toArgs o | None => [] end) w
  /\ CommandNames.FT_CREATE = EStr "FT.CREATE"
  /\ FtCreateKeywords.SCHEMA = EStr "SCHEMA".
Proof.
  repeat split.
  - unfold create. rewrite create_args_shape. reflexivity.
  - unfold create. rewrite create_args_shape, app_nil_r. reflexivity.
Qed.

(** C7.  [dropindex] on "idx" hands the client exactly
    [["FT.DROPINDEX"; "idx"]]; for every alias and index name, [aliasadd]
    hands it [[keyword; alias; indexName]], [aliasdel] [[keyword; alias]]
    and [aliasupdate] [[keyword; alias; indexName]], and nothing more. *)
Theorem fixed_shape_commands (W : Type) (client : GlideClient W)
  (alias indexName : TEncodable) (w : W) :
  dropindex (EStr "idx") w
  = custom_command [EStr "FT.DROPINDEX"; EStr "idx"] w
  /\ dropindex indexName w
     = custom_command [CommandNames.FT_DROPINDEX; indexName] w
  /\ aliasadd alias indexName w
     = custom_command [CommandNames.FT_ALIASADD; alias; indexName] w
  /\ aliasdel alias w
     = custom_command [CommandNames.FT_ALIASDEL; alias] w
  /\ aliasupdate alias indexName w
     = custom_command [CommandNames.FT_ALIASUPDATE; alias; indexName] w.
Proof. repeat split; reflexivity. Qed.

(* The five commands on the logging client, run. *)
Example ft_log :
  let ok := fun _ : list TEncodable => Ok (PyStr "OK") in
  let c := recording_client ok in
  let i := fun _ : unit => [EStr "title"; EStr "TEXT"] in
  snd (@create _ c unit unit i i (EStr "idx") [tt] None []) =
    [[EStr "FT.CREATE"; EStr "idx"; EStr "SCHEMA"; EStr "title"; EStr "TEXT"]] /\
  snd (@create _ c unit unit i i (EStr "idx") [] None []) =
    [[EStr "FT.CREATE"; EStr "idx"]] /\
  snd (@dropindex _ c (EStr "idx") []) = [[EStr "FT.DROPINDEX"; EStr "idx"]] /\
  snd (@aliasdel _ c (EStr "a") []) = [[EStr "FT.ALIASDEL"; EStr "a"]].
Proof. repeat split; reflexivity. Qed.

End FtFacts.

(** ** More on the SET options *)

Module CoreExtra.
Import Py Core PyFacts CoreFacts FloatTrunc FloatExact FloatNear.

(** *** The decimal numeral of an int *)

Lemma to_int_not_nil (z : Z) :
  Z.to_int z <> Decimal.Pos Decimal.Nil /\ Z.to_int z <> Decimal.Neg Decimal.Nil.
Proof.
  destruct z; simpl; split; try discriminate;
    intros H; injection H; apply DecimalPos.Unsigned.to_uint_nonnil.
Qed.

Lemma int_of_decimal (z : Z) :
  NilZero.int_of_string (decimal z) = Some (Z.to_int z).
Proof.
  unfold decimal. destruct (to_int_not_nil z). apply NilZero.isi; assumption.
Qed.

(* The numeral determines the int. *)
Lemma decimal_inj (a b : Z) : decimal a = decimal b -> a = b.
Proof.
  intros H. apply DecimalZ.to_int_inj.
  pose proof (int_of_decimal a) as Ha.
  pose proof (int_of_decimal b) as Hb.
  rewrite H in Ha. congruence.
Qed.

Lemma decimal_nonempty (z : Z) : decimal z <> "".
Proof.
  intros H. pose proof (int_of_decimal z) as Hz.
  rewrite H in Hz. discriminate.
Qed.

Lemma decimal_not_zero (z : Z) : z <> 0 -> decimal z <> "0".
Proof.
  intros Hz H. apply Hz. apply decimal_inj. exact H.
Qed.

(* What [str] returns is the numeral. *)
Lemma str_of_int_Ok (z : Z) (s : string) :
  str_of_int z = Ok s -> s = decimal z /\ Z.abs z < str_digits_limit.
Proof.
  unfold str_of_int. destruct (Z.ltb_spec (Z.abs z) str_digits_limit) as [H|H];
    [|discriminate].
  intros E. injection E as <-. split; [reflexivity|exact H].
Qed.

(** *** The seconds modes *)

(** X1.  Under SEC, a timedelta of less than 2**33 seconds (about 272
    years) in magnitude is normalised to its whole seconds, truncated
    towards zero; UNIX_SEC does the same to an aware datetime less than
    2**33 seconds away from the epoch. *)
Theorem seconds_truncate_toward_zero (td : timedelta) :
  - (2 ^ 33 * 1000000) < total_microseconds td < 2 ^ 33 * 1000000 ->
  normalized SEC (PyTimedelta td)
  = Ok (PyInt (total_microseconds td ÷ 1000000)) /\
  normalized UNIX_SEC (PyDatetime (mk_datetime td))
  = Ok (PyInt (total_microseconds td ÷ 1000000)).
Proof.
  intros H. pose proof (int_truediv_quot _ H) as Hq.
  unfold normalized, expiry_chain, timestamp, total_seconds. cbn [minus_EPOCH].
  rewrite Hq. split; reflexivity.
Qed.

Lemma seconds_truncate_toward_zero_witness :
  normalized SEC (PyTimedelta (mk_timedelta (-1) 86394 100000))
  = Ok (PyInt (total_microseconds (mk_timedelta (-1) 86394 100000) ÷ 1000000)) /\
  normalized UNIX_SEC (PyDatetime (mk_datetime (mk_timedelta (-1) 86394 100000)))
  = Ok (PyInt (total_microseconds (mk_timedelta (-1) 86394 100000) ÷ 1000000)).
Proof.
  apply (seconds_truncate_toward_zero (mk_timedelta (-1) 86394 100000)).
  vm_compute. split; reflexivity.
Defined.

Lemma whole_seconds_total (td : timedelta) :
  microseconds td = 0 ->
  total_microseconds td = (days td * 86400 + seconds td) * 10 ^ 6.
Proof. unfold total_microseconds. intros ->. lia. Qed.

Lemma whole_seconds_bound (td : timedelta) :
  timedelta_wf td -> - 2 ^ 53 < days td * 86400 + seconds td < 2 ^ 53.
Proof.
  unfold timedelta_wf. change (2 ^ 53) with 9007199254740992. lia.
Qed.

(** X2.  Under SEC every timedelta of whole seconds, over the whole range
    of the class, is normalised to exactly its number of seconds; UNIX_SEC
    does the same to an aware datetime on a whole second. *)
Theorem whole_seconds_are_exact (td : timedelta) :
  timedelta_wf td -> microseconds td = 0 ->
  normalized SEC (PyTimedelta td)
  = Ok (PyInt (days td * 86400 + seconds td)) /\
  normalized UNIX_SEC (PyDatetime (mk_datetime td))
  = Ok (PyInt (days td * 86400 + seconds td)).
Proof.
  intros Hwf Hus.
  pose proof (int_truediv_whole _ (whole_seconds_bound td Hwf)) as Hq.
  unfold normalized, expiry_chain, timestamp, total_seconds. cbn [minus_EPOCH].
  rewrite (whole_seconds_total td Hus), Hq. split; reflexivity.
Qed.

Lemma whole_seconds_are_exact_witness :
  normalized SEC (PyTimedelta (mk_timedelta 999999999 86399 0))
  = Ok (PyInt (999999999 * 86400 + 86399)) /\
  normalized UNIX_SEC (PyDatetime (mk_datetime (mk_timedelta 999999999 86399 0)))
  = Ok (PyInt (999999999 * 86400 + 86399)).
Proof.
  apply (whole_seconds_are_exact (mk_timedelta 999999999 86399 0)).
  - unfold timedelta_wf. simpl. lia.
  - reflexivity.
Defined.

(** X3.  Under MILLSEC a timedelta of whole seconds, of less than 2**46
    seconds in magnitude, is normalised to exactly a thousand times its
    number of seconds; UNIX_MILLSEC does the same to an aware datetime on a
    whole second. *)
Theorem whole_seconds_in_milliseconds (td : timedelta) :
  microseconds td = 0 ->
  - 2 ^ 46 < days td * 86400 + seconds td < 2 ^ 46 ->
  normalized MILLSEC (PyTimedelta td)
  = Ok (PyInt (1000 * (days td * 86400 + seconds td))) /\
  normalized UNIX_MILLSEC (PyDatetime (mk_datetime td))
  = Ok (PyInt (1000 * (days td * 86400 + seconds td))).
Proof.
  intros Hus Hn.
  pose proof (int_mul_1000_whole _ Hn) as Hq.
  unfold normalized, expiry_chain, timestamp, total_seconds. cbn [minus_EPOCH].
  rewrite (whole_seconds_total td Hus), Hq. split; reflexivity.
Qed.

Lemma whole_seconds_in_milliseconds_witness :
  normalized MILLSEC (PyTimedelta (mk_timedelta 19675 3600 0))
  = Ok (PyInt (1000 * (19675 * 86400 + 3600))) /\
  normalized UNIX_MILLSEC (PyDatetime (mk_datetime (mk_timedelta 19675 3600 0)))
  = Ok (PyInt (1000 * (19675 * 86400 + 3600))).
Proof.
  apply (whole_seconds_in_milliseconds (mk_timedelta 19675 3600 0)).
  - reflexivity.
  - vm_compute. split; reflexivity.
Defined.

(* The bound is needed: further out the float product is no longer exact,
   and a timedelta of 80000000000001 seconds comes out 8 ms short. *)
Example whole_seconds_beyond_bound :
  days (mk_timedelta 925925925 80001 0) * 86400
  + seconds (mk_timedelta 925925925 80001 0) = 80000000000001 /\
  normalized MILLSEC (PyTimedelta (mk_timedelta 925925925 80001 0))
  = Ok (PyInt (1000 * 80000000000001 - 8)).
Proof. split; vm_compute; reflexivity. Qed.

(** X12.  Under MILLSEC a timedelta of less than 2**31 seconds (about 68
    years) in magnitude is normalised to its whole milliseconds truncated
    towards zero, or, only when it is a whole number of milliseconds, to
    one millisecond closer to zero; the result is never further from zero
    than the truncated count.  UNIX_MILLSEC does the same to an aware
    datetime less than 2**31 seconds from the epoch. *)
Theorem milliseconds_lose_at_most_one (td : timedelta) :
  - (2 ^ 31 * 1000000) < total_microseconds td < 2 ^ 31 * 1000000 ->
  exists z,
    normalized MILLSEC (PyTimedelta td) = Ok (PyInt z) /\
    normalized UNIX_MILLSEC (PyDatetime (mk_datetime td)) = Ok (PyInt z) /\
    (z = total_microseconds td ÷ 1000 \/
     (Z.rem (total_microseconds td) 1000 = 0 /\
      z = total_microseconds td ÷ 1000 - Z.sgn (total_microseconds td))).
Proof.
  intros H. destruct (int_mul_1000_near _ H) as [z [Hz Hcases]].
  exists z.
  unfold normalized, expiry_chain, timestamp, total_seconds. cbn [minus_EPOCH].
  rewrite Hz. repeat split. exact Hcases.
Qed.

Lemma milliseconds_lose_at_most_one_witness :
  exists z,
    normalized MILLSEC (PyTimedelta (mk_timedelta 0 1 1000)) = Ok (PyInt z) /\
    normalized UNIX_MILLSEC (PyDatetime (mk_datetime (mk_timedelta 0 1 1000)))
    = Ok (PyInt z) /\
    (z = total_microseconds (mk_timedelta 0 1 1000) ÷ 1000 \/
     (Z.rem (total_microseconds (mk_timedelta 0 1 1000)) 1000 = 0 /\
      z = total_microseconds (mk_timedelta 0 1 1000) ÷ 1000
          - Z.sgn (total_microseconds (mk_timedelta 0 1 1000)))).
Proof.
  apply (milliseconds_lose_at_most_one (mk_timedelta 0 1 1000)).
  vm_compute. split; reflexivity.
Defined.

(** *** What the constructor accepts and what it stores *)

(* An int under one of the four modes that take a number. *)
Lemma int_expiry (m : ExpiryType) (z : Z) :
  m <> KEEP_TTL ->
  ExpirySet_init m (PyInt z)
  = sv <- str_if_truthy (PyInt z) ;;
    Ok {| expiry_type := m; cmd_arg := redis_keyword m; value := sv |}.
Proof.
  intros Hm. unfold ExpirySet_init, set_expiry_type_and_value.
  destruct m; try congruence; reflexivity.
Qed.

Lemma int_expiry_small (m : ExpiryType) (z : Z) :
  m <> KEEP_TTL -> Z.abs z < str_digits_limit ->
  ExpirySet_init m (PyInt z)
  = Ok {| expiry_type := m; cmd_arg := redis_keyword m;
          value := if z =? 0 then None else Some (decimal z) |}.
Proof.
  intros Hm Hz. rewrite (int_expiry m z Hm).
  unfold str_if_truthy. cbn [truthy py_str].
  destruct (z =? 0); cbn [negb bind]; [reflexivity|].
  rewrite (str_of_int_small z Hz). reflexivity.
Qed.

Lemma int_expiry_large (m : ExpiryType) (z : Z) :
  m <> KEEP_TTL -> str_digits_limit <= Z.abs z ->
  ExpirySet_init m (PyInt z) = Raise ValueError.
Proof.
  intros Hm Hz. rewrite (int_expiry m z Hm).
  unfold str_if_truthy. cbn [truthy py_str].
  assert (Hnz : (z =? 0) = false).
  { apply Z.eqb_neq. intros ->.
    assert (0 < str_digits_limit) by (vm_compute; reflexivity).
    simpl in Hz. lia. }
  rewrite Hnz. cbn [negb bind].
  rewrite (str_of_int_large z Hz). reflexivity.
Qed.

(* What a returned int expiry holds. *)
Lemma int_expiry_Ok (m : ExpiryType) (z : Z) (e : ExpirySet) :
  ExpirySet_init m (PyInt z) = Ok e ->
  m <> KEEP_TTL /\
  e = {| expiry_type := m; cmd_arg := redis_keyword m;
         value := if z =? 0 then None else Some (decimal z) |}.
Proof.
  intros H.
  assert (Hm : m <> KEEP_TTL) by (intros ->; discriminate).
  split; [exact Hm|].
  destruct (Z_lt_le_dec (Z.abs z) str_digits_limit) as [Hz|Hz].
  - rewrite (int_expiry_small m z Hm Hz) in H. congruence.
  - rewrite (int_expiry_large m z Hm Hz) in H. discriminate.
Qed.

(* On an accepted, well-formed value that does not depend on the host, an
   int of more than 4300 digits apart, the constructor returns. *)
Lemma construction_returns (m : ExpiryType) (v : PyValue) :
  value_wf v -> host_independent v ->
  isinstance v (accepted_types m) = true ->
  (forall z, v = PyInt z -> Z.abs z < str_digits_limit) ->
  exists e, ExpirySet_init m v = Ok e.
Proof.
  intros Hwf Hind Hacc Hv.
  destruct (expiry_chain_returns m v Hwf Hind Hacc) as [n [Hch Hn]].
  specialize (Hn Hv).
  destruct (expiry_chain_scalar m v _ n Hacc Hch) as [_ Hsc].
  unfold ExpirySet_init, set_expiry_type_and_value.
  rewrite Hacc, Hch. cbn [negb bind fst snd]. unfold str_if_truthy.
  destruct Hsc as [->|[[b ->]|[z ->]]]; cbn [truthy].
  - eexists; reflexivity.
  - destruct b; eexists; reflexivity.
  - destruct (z =? 0); cbn [negb bind py_str]; [eexists; reflexivity|].
    rewrite (str_of_int_small z (Hn z eq_refl)). eexists; reflexivity.
Qed.

(** X4.  On a well-formed value other than a naive datetime the constructor
    fails in two ways only, both with ValueError: at the type test of line
    60, or at [str] on line 83 when the value is an int of more than 4300
    digits.  The float conversions of a timedelta or an aware datetime
    never raise, and no value is refused for its sign. *)
Theorem construction_failures (m : ExpiryType) (v : PyValue) :
  value_wf v -> host_independent v ->
  (forall exc, ExpirySet_init m v = Raise exc ->
     exc = ValueError /\
     (isinstance v (accepted_types m) = false \/
      exists z, v = PyInt z /\ str_digits_limit <= Z.abs z)) /\
  (isinstance v (accepted_types m) = false ->
   ExpirySet_init m v = Raise ValueError) /\
  (isinstance v (accepted_types m) = true ->
   forall z, v = PyInt z -> str_digits_limit <= Z.abs z ->
   ExpirySet_init m v = Raise ValueError) /\
  (isinstance v (accepted_types m) = true ->
   (forall z, v = PyInt z -> Z.abs z < str_digits_limit) ->
   exists e, ExpirySet_init m v = Ok e).
Proof.
  intros Hwf Hind.
  assert (Hrej : isinstance v (accepted_types m) = false ->
                 ExpirySet_init m v = Raise ValueError).
  { intros Hacc. unfold ExpirySet_init, set_expiry_type_and_value.
    rewrite Hacc. reflexivity. }
  assert (Hlarge : isinstance v (accepted_types m) = true ->
                   forall z, v = PyInt z -> str_digits_limit <= Z.abs z ->
                   ExpirySet_init m v = Raise ValueError).
  { intros Hacc z -> Hz. apply int_expiry_large; [|exact Hz].
    intros ->. discriminate. }
  split; [|split; [exact Hrej|split; [exact Hlarge|]]].
  - intros exc H.
    destruct (isinstance v (accepted_types m)) eqn:Hacc.
    + destruct v as [ | b | z | x | s | td | dt | nd ];
        try (destruct (construction_returns m _ Hwf Hind Hacc) as [e He];
             [intros z0 E; discriminate E|congruence]).
      destruct (Z_lt_le_dec (Z.abs z) str_digits_limit) as [Hz|Hz].
      * destruct (construction_returns m _ Hwf Hind Hacc) as [e He];
          [intros z0 E; injection E as <-; exact Hz|congruence].
      * rewrite (Hlarge eq_refl z eq_refl Hz) in H. injection H as <-.
        split; [reflexivity|]. right. exists z. split; [reflexivity|exact Hz].
    + rewrite (Hrej eq_refl) in H. injection H as <-.
      split; [reflexivity|]. left. reflexivity.
  - intros Hacc Hv. apply construction_returns; assumption.
Qed.

Lemma construction_failures_witness :
  (forall exc,
     ExpirySet_init UNIX_SEC (PyTimedelta (mk_timedelta 0 5 0)) = Raise exc ->
     exc = ValueError /\
     (isinstance (PyTimedelta (mk_timedelta 0 5 0)) (accepted_types UNIX_SEC)
      = false \/
      exists z, PyTimedelta (mk_timedelta 0 5 0) = PyInt z /\
                str_digits_limit <= Z.abs z)) /\
  (isinstance (PyTimedelta (mk_timedelta 0 5 0)) (accepted_types UNIX_SEC)
   = false ->
   ExpirySet_init UNIX_SEC (PyTimedelta (mk_timedelta 0 5 0))
   = Raise ValueError) /\
  (isinstance (PyTimedelta (mk_timedelta 0 5 0)) (accepted_types UNIX_SEC)
   = true ->
   forall z, PyTimedelta (mk_timedelta 0 5 0) = PyInt z ->
   str_digits_limit <= Z.abs z ->
   ExpirySet_init UNIX_SEC (PyTimedelta (mk_timedelta 0 5 0))
   = Raise ValueError) /\
  (isinstance (PyTimedelta (mk_timedelta 0 5 0)) (accepted_types UNIX_SEC)
   = true ->
   (forall z, PyTimedelta (mk_timedelta 0 5 0) = PyInt z ->
              Z.abs z < str_digits_limit) ->
   exists e, ExpirySet_init UNIX_SEC (PyTimedelta (mk_timedelta 0 5 0)) = Ok e).
Proof.
  apply (construction_failures UNIX_SEC (PyTimedelta (mk_timedelta 0 5 0))).
  - simpl. unfold timedelta_wf. simpl. lia.
  - exact I.
Defined.

(* A naive datetime is outside that statement: at datetime.min the host's
   conversion raises ValueError after the type test has passed. *)
Example naive_datetime_min_raises :
  isinstance (PyNaiveDatetime (mk_naive_datetime 0 (inl HostValueError)))
    (accepted_types UNIX_SEC) = true /\
  ExpirySet_init UNIX_SEC
    (PyNaiveDatetime (mk_naive_datetime 0 (inl HostValueError)))
  = Raise ValueError.
Proof. split; reflexivity. Qed.

(** X5.  Under the four modes that take a number, every int other than 0
    and of at most 4300 digits is passed on as its own decimal numeral,
    negative ones included: the tokens are the keyword and the numeral.  An
    int of more than 4300 digits makes the constructor raise ValueError, at
    [str] on line 83. *)
Theorem nonzero_int_passes_unchanged (m : ExpiryType) (z : Z) :
  m <> KEEP_TTL -> z <> 0 ->
  (Z.abs z < str_digits_limit ->
   exists e,
     ExpirySet_init m (PyInt z) = Ok e /\
     get_cmd_args e = [redis_keyword m; decimal z]) /\
  (str_digits_limit <= Z.abs z ->
   ExpirySet_init m (PyInt z) = Raise ValueError).
Proof.
  intros Hm Hz. split.
  - intros Hs. rewrite (int_expiry_small m z Hm Hs).
    apply Z.eqb_neq in Hz. rewrite Hz.
    eexists. split; reflexivity.
  - intros Hl. apply int_expiry_large; assumption.
Qed.

Lemma nonzero_int_passes_unchanged_witness :
  (Z.abs (-5) < str_digits_limit ->
   exists e,
     ExpirySet_init UNIX_MILLSEC (PyInt (-5)) = Ok e /\
     get_cmd_args e = [redis_keyword UNIX_MILLSEC; decimal (-5)]) /\
  (str_digits_limit <= Z.abs (-5) ->
   ExpirySet_init UNIX_MILLSEC (PyInt (-5)) = Raise ValueError).
Proof.
  apply (nonzero_int_passes_unchanged UNIX_MILLSEC (-5)).
  - discriminate.
  - lia.
Defined.

(* The limit of [str], run on both sides: [10**4300 - 1] has 4300 digits
   and is converted, [10**4300] is not. *)
Example str_limit_sides :
  (exists s, str_of_int (str_digits_limit - 1) = Ok s) /\
  str_of_int str_digits_limit = Raise ValueError /\
  ExpirySet_init SEC (PyInt str_digits_limit) = Raise ValueError.
Proof.
  split; [|split].
  - eexists. apply str_of_int_small. vm_compute. reflexivity.
  - apply str_of_int_large. vm_compute. discriminate.
  - apply int_expiry_large; [discriminate|]. vm_compute. discriminate.
Qed.

(** X6.  The tokens of an int expiry determine the int: two ints given to
    the same mode lead to the same tokens only when they are equal. *)
Theorem int_expiry_tokens_determine_int (m : ExpiryType) (a b : Z)
  (ea eb : ExpirySet) :
  ExpirySet_init m (PyInt a) = Ok ea ->
  ExpirySet_init m (PyInt b) = Ok eb ->
  get_cmd_args ea = get_cmd_args eb ->
  a = b.
Proof.
  intros Ha Hb Heq.
  destruct (int_expiry_Ok m a ea Ha) as [_ ->].
  destruct (int_expiry_Ok m b eb Hb) as [_ ->].
  unfold get_cmd_args in Heq. cbn [value cmd_arg] in Heq.
  destruct (a =? 0) eqn:Ea, (b =? 0) eqn:Eb; try discriminate.
  - apply Z.eqb_eq in Ea, Eb. congruence.
  - injection Heq as Heq. apply decimal_inj. exact Heq.
Qed.

Lemma int_expiry_tokens_determine_int_witness : 42 = 42.
Proof.
  apply (int_expiry_tokens_determine_int SEC 42 42
           {| expiry_type := SEC; cmd_arg := "EX"; value := Some "42" |}
           {| expiry_type := SEC; cmd_arg := "EX"; value := Some "42" |});
    reflexivity.
Defined.

(** X7.  Every object the constructor returns keeps its expiry type, holds
    the keyword of that type, and gives one or two tokens, the keyword
    first; its value string is never empty and never "0", and under
    KEEP_TTL there is none. *)
Theorem constructed_expiry_invariant (m : ExpiryType) (v : PyValue)
  (e : ExpirySet) :
  ExpirySet_init m v = Ok e ->
  expiry_type e = m /\
  cmd_arg e = redis_keyword m /\
  (m = KEEP_TTL -> value e = None) /\
  value e <> Some "" /\
  value e <> Some "0" /\
  exists rest, get_cmd_args e = redis_keyword m :: rest /\ (List.length rest <= 1)%nat.
Proof.
  unfold ExpirySet_init, set_expiry_type_and_value.
  destruct (isinstance v (accepted_types m)) eqn:Hacc; [|discriminate].
  cbn [negb].
  destruct (expiry_chain m v) as [[c n]|exc] eqn:Hch; [|discriminate].
  destruct (expiry_chain_scalar m v c n Hacc Hch) as [-> Hn].
  assert (Hk : m = KEEP_TTL -> n = PyNone).
  { intros ->. rewrite (keep_ttl_accepts_only_None v Hacc) in Hch.
    simpl in Hch. congruence. }
  cbn [bind fst snd]. unfold str_if_truthy.
  destruct Hn as [->|[[b ->]|[z ->]]]; cbn [truthy].
  - intros H. injection H as <-. unfold get_cmd_args. cbn.
    repeat split; try discriminate. exists []. split; [reflexivity|]. simpl. lia.
  - destruct b; intros H; injection H as <-; unfold get_cmd_args; cbn.
    + repeat split; try discriminate.
      * intros E. specialize (Hk E). discriminate.
      * eexists. split; [reflexivity|]. simpl. lia.
    + repeat split; try discriminate. exists []. split; [reflexivity|]. simpl. lia.
  - destruct (Z.eqb_spec z 0) as [->|Hz]; cbn [negb bind py_str].
    + intros H; injection H as <-; unfold get_cmd_args;
        cbn [value cmd_arg expiry_type].
      repeat split; try discriminate. exists []. split; [reflexivity|]. simpl. lia.
    + destruct (str_of_int z) as [s|exc] eqn:Es; cbn [bind]; [|discriminate].
      destruct (str_of_int_Ok z s Es) as [-> _].
      intros H; injection H as <-; unfold get_cmd_args;
        cbn [value cmd_arg expiry_type].
      repeat split.
      * intros E. specialize (Hk E). discriminate.
      * intros E. injection E as E. exact (decimal_nonempty z E).
      * intros E. injection E as E. exact (decimal_not_zero z Hz E).
      * eexists. split; [reflexivity|]. simpl. lia.
Qed.

Lemma constructed_expiry_invariant_witness :
  let e := {| expiry_type := MILLSEC; cmd_arg := "PX"; value := Some "1500" |} in
  expiry_type e = MILLSEC /\
  cmd_arg e = redis_keyword MILLSEC /\
  (MILLSEC = KEEP_TTL -> value e = None) /\
  value e <> Some "" /\
  value e <> Some "0" /\
  exists rest,
    get_cmd_args e = redis_keyword MILLSEC :: rest /\ (List.length rest <= 1)%nat.
Proof.
  apply (constructed_expiry_invariant MILLSEC
           (PyTimedelta (mk_timedelta 0 1 500700))).
  vm_compute. reflexivity.
Defined.

(** *** The list [set] dispatches *)

Lemma get_cmd_args_length (e : ExpirySet) :
  (1 <= List.length (get_cmd_args e) <= 2)%nat.
Proof. unfold get_cmd_args. destruct (value e); simpl; lia. Qed.

(** X8.  Whatever the options, and whatever the strings given as key and
    value, the list [set] dispatches starts with the key and the value and
    has between two and six tokens. *)
Theorem set_args_prefix_and_length (key value : string)
  (c : option ConditionalSet) (expiry : option ExpirySet) (rov : bool) :
  firstn 2 (set_args key value c expiry rov) = [key; value] /\
  (2 <= List.length (set_args key value c expiry rov) <= 6)%nat.
Proof.
  rewrite set_args_in_order. split; [reflexivity|].
  rewrite !length_app.
  assert (Hc : (List.length match c with
                       | Some c0 => [ConditionalSet_token c0]
                       | None => []
                       end <= 1)%nat) by (destruct c; simpl; lia).
  assert (Hg : (List.length (if rov then ["GET"] else []) <= 1)%nat)
    by (destruct rov; simpl; lia).
  assert (He : (List.length match expiry with
                       | Some e => get_cmd_args e
                       | None => []
                       end <= 2)%nat).
  { destruct expiry as [e|]; [apply get_cmd_args_length|simpl; lia]. }
  change (List.length [key; value]) with 2%nat. lia.
Qed.

(** X9.  A call of [set] that constructs its expiry from a well-formed
    value other than a naive datetime has exactly three outcomes on a
    logging adapter.  The value fails the type test: ValueError, and the
    log is unchanged.  The value is an accepted int of more than 4300
    digits: ValueError from [str], and the log is unchanged.  Otherwise the
    expiry is constructed and exactly one SetString request is logged, made
    of the tokens of that expiry after the other arguments, and the
    adapter's reply is returned. *)
Theorem set_constructing_expiry_dispatches_once
  (reply : RequestType -> list string -> result PyValue)
  (key value : string) (c : option ConditionalSet)
  (m : ExpiryType) (v : PyValue) (rov : bool) (log : Log) :
  value_wf v -> host_independent v ->
  (isinstance v (accepted_types m) = false /\
   @set_constructing_expiry _ (recording reply) key value c m v rov log
   = (Raise ValueError, log)) \/
  (isinstance v (accepted_types m) = true /\
   (exists z, v = PyInt z /\ str_digits_limit <= Z.abs z) /\
   @set_constructing_expiry _ (recording reply) key value c m v rov log
   = (Raise ValueError, log)) \/
  (isinstance v (accepted_types m) = true /\
   (forall z, v = PyInt z -> Z.abs z < str_digits_limit) /\
   exists e,
     ExpirySet_init m v = Ok e /\
     @set_constructing_expiry _ (recording reply) key value c m v rov log
     = (reply SetString (set_args key value c (Some e) rov),
        log ++ [(SetString, set_args key value c (Some e) rov)])).
Proof.
  intros Hwf Hind. unfold set_constructing_expiry.
  destruct (isinstance v (accepted_types m)) eqn:Hacc.
  - right.
    assert (Hcases : (exists z, v = PyInt z /\ str_digits_limit <= Z.abs z) \/
                     (forall z, v = PyInt z -> Z.abs z < str_digits_limit)).
    { destruct v as [ | b | z | x | s | td | dt | nd ];
        try (right; intros z0 E; discriminate E).
      destruct (Z_lt_le_dec (Z.abs z) str_digits_limit) as [Hz|Hz].
      - right. intros z0 E. injection E as <-. exact Hz.
      - left. exists z. split; [reflexivity|exact Hz]. }
    destruct Hcases as [[z [-> Hz]]|Hsmall].
    + left. split; [reflexivity|]. split; [eauto|].
      rewrite int_expiry_large; [reflexivity| |exact Hz].
      intros ->. discriminate.
    + right. split; [reflexivity|]. split; [exact Hsmall|].
      destruct (construction_returns m v Hwf Hind Hacc Hsmall) as [e He].
      exists e. rewrite He. split; reflexivity.
  - left. split; [reflexivity|].
    unfold ExpirySet_init, set_expiry_type_and_value. rewrite Hacc. reflexivity.
Qed.

Lemma set_constructing_expiry_dispatches_once_witness :
  (isinstance (PyInt 5) (accepted_types SEC) = false /\
   @set_constructing_expiry _ (recording (fun _ _ => Ok (PyStr "OK")))
     "k" "v" None SEC (PyInt 5) false []
   = (Raise ValueError, [])) \/
  (isinstance (PyInt 5) (accepted_types SEC) = true /\
   (exists z, PyInt 5 = PyInt z /\ str_digits_limit <= Z.abs z) /\
   @set_constructing_expiry _ (recording (fun _ _ => Ok (PyStr "OK")))
     "k" "v" None SEC (PyInt 5) false []
   = (Raise ValueError, [])) \/
  (isinstance (PyInt 5) (accepted_types SEC) = true /\
   (forall z, PyInt 5 = PyInt z -> Z.abs z < str_digits_limit) /\
   exists e,
     ExpirySet_init SEC (PyInt 5) = Ok e /\
     @set_constructing_expiry _ (recording (fun _ _ => Ok (PyStr "OK")))
       "k" "v" None SEC (PyInt 5) false []
     = ((fun _ _ => Ok (PyStr "OK")) SetString (set_args "k" "v" None (Some e) false),
        [] ++ [(SetString, set_args "k" "v" None (Some e) false)])).
Proof.
  apply (set_constructing_expiry_dispatches_once
           (fun _ _ => Ok (PyStr "OK")) "k" "v" None SEC (PyInt 5) false []);
    exact I.
Defined.

End CoreExtra.

(** ** More on [ft.create] *)

Module FtExtra.
Import Py Core Ft FtFacts.

(** X10.  Fields added at the end of a schema that is not empty add their
    tokens at the end of the list [create] hands over, after everything
    the shorter schema gives. *)
Theorem create_args_app (Field FtCreateOptions : Type)
  (Field_toArgs : ToArgs Field) (FtCreateOptions_toArgs : ToArgs FtCreateOptions)
  (indexName : TEncodable) (field : Field) (schema more : list Field)
  (options : option FtCreateOptions) :
  create_args indexName ((field :: schema) ++ more) options
  = create_args indexName (field :: schema) options
    ++ List.concat (map toArgs more).
Proof.
  rewrite !create_args_shape.
  change ((field :: schema) ++ more) with (field :: (schema ++ more)).
  cbn [map List.concat]. rewrite map_app, concat_app.
  repeat (rewrite <- app_assoc || rewrite <- app_comm_cons).
  reflexivity.
Qed.

(** X11.  [create] tests the schema list, not the tokens of its fields:
    when the schema is not empty but none of its fields gives a token, the
    list still carries the SCHEMA keyword, as its last token. *)
Theorem create_keeps_keyword_for_tokenless_fields (Field FtCreateOptions : Type)
  (Field_toArgs : ToArgs Field) (FtCreateOptions_toArgs : ToArgs FtCreateOptions)
  (indexName : TEncodable) (schema : list Field)
  (options : option FtCreateOptions) :
  schema <> [] ->
  (forall field, In field schema -> toArgs field = []) ->
  create_args indexName schema options
  = [CommandNames.FT_CREATE; indexName]
    ++ match options with Some o => toArgs o | None => [] end
    ++ [FtCreateKeywords.SCHEMA].
Proof.
  intros Hne Hnil. rewrite create_args_shape.
  assert (Hc : List.concat (map toArgs schema) = []).
  { clear Hne. induction schema as [|f schema IH]; [reflexivity|].
    cbn [map List.concat]. rewrite (Hnil f (or_introl eq_refl)).
    apply IH. intros g Hg. apply Hnil. right. exact Hg. }
  destruct schema as [|f schema]; [congruence|].
  rewrite Hc. reflexivity.
Qed.

Lemma create_keeps_keyword_for_tokenless_fields_witness :
  @create_args unit unit (fun _ => []) (fun _ => [EStr "ON"; EStr "HASH"])
    (EStr "idx") [tt; tt] (Some tt)
  = [CommandNames.FT_CREATE; EStr "idx"]
    ++ [EStr "ON"; EStr "HASH"]
    ++ [FtCreateKeywords.SCHEMA].
Proof.
  apply (create_keeps_keyword_for_tokenless_fields unit unit
           (fun _ => []) (fun _ => [EStr "ON"; EStr "HASH"])
           (EStr "idx") [tt; tt] (Some tt)).
  - discriminate.
  - intros field _. reflexivity.
Defined.

End FtExtra.
